(** * Lead intake backend (server.js): shallow embedding and its properties

    The model follows [server.js]: the JS values of a JSON request body,
    the string helpers ([escapeHtml], [isValidEmail], the whitespace strip
    of [getMailer], [String.prototype.replace] and [replaceAll]), the
    SQLite [leads] table, the SMTP transport, and the route handlers. *)

From Stdlib Require Import String Ascii List Bool Arith Lia ZArith Permutation Sorted.
From Stdlib Require Import Numbers.DecimalString.
Import ListNotations.
Open Scope string_scope.

(** ** JS values *)

(** A value of a parsed JSON body. A number carries its canonical JS
    string form ([String(n)]); an array or object carries the string that
    [String(v)] gives for it. *)
Inductive jsval : Type :=
| JNull
| JBool (b : bool)
| JNum (repr : string)
| JStr (s : string)
| JObj (repr : string).

(** JS truthiness. JSON numbers are never NaN; [-0] prints as ["0"]. *)
Definition truthy (v : jsval) : bool :=
  match v with
  | JNull => false
  | JBool b => b
  | JNum r => negb (r =? "0")%string
  | JStr s => negb (s =? EmptyString)%string
  | JObj _ => true
  end.

(** An absent property is [undefined], which is falsy. *)
Definition truthy_opt (o : option jsval) : bool :=
  match o with Some v => truthy v | None => false end.

(** [String(v)]; [String(undefined)] is ["undefined"]. *)
Definition js_String (v : jsval) : string :=
  match v with
  | JNull => "null"
  | JBool true => "true"
  | JBool false => "false"
  | JNum r => r
  | JStr s => s
  | JObj r => r
  end.

(** [v || d] *)
Definition js_or (o : option jsval) (d : jsval) : jsval :=
  match o with Some v => if truthy v then v else d | None => d end.

(** Environment variables are strings or absent. *)
Definition env_truthy (o : option string) : bool :=
  match o with Some s => negb (s =? EmptyString)%string | None => false end.

Definition env_or (o : option string) (d : string) : string :=
  match o with Some s => if (s =? EmptyString)%string then d else s | None => d end.

(** The characters of the JS class [\s] with a code point below 256. *)
Definition is_ws (c : ascii) : bool :=
  match nat_of_ascii c with
  | 9 | 10 | 11 | 12 | 13 | 32 | 160 => true
  | _ => false
  end.

(** [s.replaceAll(c, rep)] for a one-character pattern [c], which is the
    form of every [replaceAll] call in the source. *)
Fixpoint replaceAll (c : ascii) (rep : string) (s : string) : string :=
  match s with
  | EmptyString => EmptyString
  | String x s' =>
      if Ascii.eqb x c then rep ++ replaceAll c rep s'
      else String x (replaceAll c rep s')
  end.

(** [s.replace(pat, rep)] with a string pattern: only the first occurrence
    is replaced. *)
Fixpoint replace_first (pat rep s : string) : string :=
  if prefix pat s then rep ++ substring (String.length pat) (String.length s - String.length pat) s
  else match s with
       | EmptyString => EmptyString
       | String x s' => String x (replace_first pat rep s')
       end.

(** [s.replace(/\s+/g, EMPTY)]: every run of whitespace is removed. *)
Fixpoint strip_ws (s : string) : string :=
  match s with
  | EmptyString => EmptyString
  | String x s' => if is_ws x then strip_ws s' else String x (strip_ws s')
  end.

(** [s.trim()] *)
Fixpoint ltrim (s : string) : string :=
  match s with
  | String x s' => if is_ws x then ltrim s' else s
  | EmptyString => EmptyString
  end.

Fixpoint rtrim (s : string) : string :=
  match s with
  | EmptyString => EmptyString
  | String x s' =>
      let r := rtrim s' in
      if (r =? EmptyString)%string && is_ws x then EmptyString else String x r
  end.

Definition trim (s : string) : string := rtrim (ltrim s).

(** [String(s || EMPTY)] followed by [replaceAll] of the ampersand, the
    less-than sign, the greater-than sign, the double quote and the single
    quote, in this order, by [&amp;], [&lt;], [&gt;], [&quot;], [&#039;]. *)
Definition escapeHtml (s : option jsval) : string :=
  replaceAll "'"%char "&#039;"
    (replaceAll (ascii_of_nat 34) "&quot;"
       (replaceAll ">"%char "&gt;"
          (replaceAll "<"%char "&lt;"
             (replaceAll "&"%char "&amp;" (js_String (js_or s (JStr EmptyString))))))).

(** A small backtracking matcher for the anchored regular expressions of
    the source: a sequence of atoms, each consuming a prefix of the input.
    [step a s] lists every remainder of [s] after one match of [a]. *)
Inductive atom : Type :=
| Lit (c : ascii)                       (* a literal character *)
| AtLeast (n : nat) (p : ascii -> bool) (* [p{n,}] *).

Fixpoint star_rests (p : ascii -> bool) (s : string) : list string :=
  s :: match s with
       | String x s' => if p x then star_rests p s' else []
       | EmptyString => []
       end.

Fixpoint atleast_rests (n : nat) (p : ascii -> bool) (s : string) : list string :=
  match n with
  | O => star_rests p s
  | S n' =>
      match s with
      | String x s' => if p x then atleast_rests n' p s' else []
      | EmptyString => []
      end
  end.

Definition step (a : atom) (s : string) : list string :=
  match a with
  | Lit c =>
      match s with
      | String x s' => if Ascii.eqb x c then [s'] else []
      | EmptyString => []
      end
  | AtLeast n p => atleast_rests n p s
  end.

Definition run (re : list atom) (s : string) : list string :=
  fold_left (fun ss a => flat_map (step a) ss) re [s].

(** [^ re $]: some run of the atoms consumes the whole input. *)
Definition re_test (re : list atom) (s : string) : bool :=
  existsb (fun r => (r =? EmptyString)%string) (run re s).

(** [[^\s@]] *)
Definition not_ws_at (c : ascii) : bool := negb (is_ws c) && negb (Ascii.eqb c "@"%char).

(** [/^[^\s@]+@[^\s@]+\.[^\s@]{2,}$/] *)
Definition email_re : list atom :=
  [AtLeast 1 not_ws_at; Lit "@"%char; AtLeast 1 not_ws_at; Lit "."%char; AtLeast 2 not_ws_at].

(** [isValidEmail(email)] *)
Definition isValidEmail (email : option jsval) : bool :=
  re_test email_re (trim (js_String (js_or email (JStr EmptyString)))).

(** ** Configuration and the mail transport *)

(** The environment variables read by the server. *)
Record env : Type := mkEnv {
  ADMIN_TOKEN : option string;
  ADMIN_API_KEY : option string;
  SMTP_HOST : option string;
  SMTP_PORT : option string;
  SMTP_USER : option string;
  SMTP_PASS : option string;
  MAIL_TO : option string;
  MAIL_FROM : option string;
  BRAND_NAME : option string
}.

(** [const ADMIN_TOKEN = process.env.ADMIN_TOKEN || process.env.ADMIN_API_KEY || EMPTY] *)
Definition admin_token (e : env) : string :=
  env_or (ADMIN_TOKEN e) (env_or (ADMIN_API_KEY e) EmptyString).

(** A JS number: the finite double [(-1)^neg * m * 2^e], an infinity, or
    NaN. *)
Inductive jsnum : Type :=
| NFin (neg : bool) (m e : Z)
| NInf (neg : bool)
| NNaN.

Section js_number.
Local Open Scope Z_scope.

(** [n / d] rounded to the nearest integer, ties to even ([n >= 0],
    [d > 0]). *)
Definition div_round_even (n d : Z) : Z :=
  let (k, r) := Z.div_eucl n d in
  match Z.compare (2 * r) d with
  | Lt => k
  | Gt => k + 1
  | Eq => if Z.even k then k else k + 1
  end.

(** [floor (log2 (p / q))] for [p, q > 0]. *)
Definition floor_log2_q (p q : Z) : Z :=
  let e1 := Z.log2 p - Z.log2 q in
  if (if 0 <=? e1 then q * 2 ^ e1 <=? p else q <=? p * 2 ^ (- e1)) then e1 else e1 - 1.

(** The double nearest to [(-1)^neg * p / q] ([p >= 0], [q > 0]), ties to
    even, with subnormals and overflow to an infinity: the rounding
    StringToNumber applies to the mathematical value of the literal. *)
Definition round_double (neg : bool) (p q : Z) : jsnum :=
  if p =? 0 then NFin neg 0 0 else
  let e := Z.max (floor_log2_q p q - 52) (-1074) in
  let m := if 0 <=? e then div_round_even p (q * 2 ^ e) else div_round_even (p * 2 ^ (- e)) q in
  let me := if m =? 2 ^ 53 then (2 ^ 52, e + 1) else (m, e) in
  if 971 <? snd me then NInf neg else NFin neg (fst me) (snd me).

(** The value of a digit in the given radix. *)
Definition digit_in (radix : Z) (c : ascii) : option Z :=
  let n := Z.of_nat (nat_of_ascii c) in
  let v := if (48 <=? n) && (n <=? 57) then Some (n - 48)
           else if (97 <=? n) && (n <=? 122) then Some (n - 87)
           else if (65 <=? n) && (n <=? 90) then Some (n - 55)
           else None in
  match v with Some d => if d <? radix then Some d else None | None => None end.

(** The longest prefix of digits: the accumulated value, the number of
    digits read, and the rest of the string. *)
Fixpoint digits_prefix (radix acc : Z) (n : nat) (s : string) : Z * nat * string :=
  match s with
  | String c s' =>
      match digit_in radix c with
      | Some d => digits_prefix radix (radix * acc + d) (S n) s'
      | None => (acc, n, s)
      end
  | EmptyString => (acc, n, EmptyString)
  end.

(** StrUnsignedDecimalLiteral without [Infinity]: digits, an optional
    fraction, an optional exponent, at least one digit before the
    exponent. The result is [(M, E)] for the value [M * 10^E]. *)
Definition parse_decimal (u : string) : option (Z * Z) :=
  let '(ip, ni, r1) := digits_prefix 10 0 0 u in
  let '(fp, nf, r2) :=
    match r1 with
    | String c r => if Ascii.eqb c "."%char then digits_prefix 10 ip 0 r else (ip, 0%nat, r1)
    | EmptyString => (ip, 0%nat, r1)
    end in
  if Nat.eqb (ni + nf) 0 then None else
  match r2 with
  | EmptyString => Some (fp, - Z.of_nat nf)
  | String c r3 =>
      if Ascii.eqb c "e"%char || Ascii.eqb c "E"%char then
        let sr := match r3 with
                  | String d r => if Ascii.eqb d "+"%char then (1, r)
                                  else if Ascii.eqb d "-"%char then (-1, r)
                                  else (1, r3)
                  | EmptyString => (1, r3)
                  end in
        let '(ev, ne, r5) := digits_prefix 10 0 0 (snd sr) in
        if Nat.eqb ne 0 then None else
        match r5 with
        | EmptyString => Some (fp, fst sr * ev - Z.of_nat nf)
        | _ => None
        end
      else None
  end.

(** The radix of a NonDecimalIntegerLiteral prefix letter. *)
Definition radix_of (c : ascii) : option Z :=
  if Ascii.eqb c "x"%char || Ascii.eqb c "X"%char then Some 16
  else if Ascii.eqb c "o"%char || Ascii.eqb c "O"%char then Some 8
  else if Ascii.eqb c "b"%char || Ascii.eqb c "B"%char then Some 2
  else None.

Definition decimal_number (neg : bool) (u : string) : jsnum :=
  if (u =? "Infinity")%string then NInf neg else
  match parse_decimal u with
  | Some (m, e) => if 0 <=? e then round_double neg (m * 10 ^ e) 1 else round_double neg m (10 ^ (- e))
  | None => NNaN
  end.

(** [Number(s)] on a string (StringToNumber): the trimmed string is empty
    (0), a [0x], [0o] or [0b] literal, or an optionally signed [Infinity]
    or decimal literal; anything else is NaN. *)
Definition js_Number (s : string) : jsnum :=
  let t := trim s in
  match t with
  | EmptyString => NFin false 0 0
  | String c0 rest =>
      match rest with
      | String c1 digits =>
          match (if Ascii.eqb c0 "0"%char then radix_of c1 else None) with
          | Some radix =>
              match digits_prefix radix 0 0 digits with
              | (v, S _, EmptyString) => round_double false v 1
              | _ => NNaN
              end
          | None =>
              if Ascii.eqb c0 "-"%char then decimal_number true rest
              else if Ascii.eqb c0 "+"%char then decimal_number false rest
              else decimal_number false t
          end
      | EmptyString =>
          if Ascii.eqb c0 "-"%char || Ascii.eqb c0 "+"%char then NNaN
          else decimal_number false t
      end
  end.

(** JS truthiness of a number: false for 0, -0 and NaN. *)
Definition jsnum_truthy (n : jsnum) : bool :=
  match n with NFin _ m _ => negb (m =? 0) | NInf _ => true | NNaN => false end.

(** [port === k] for an integer [k]: equality of values, so [-0 === 0]. *)
Definition port_is (n : jsnum) (k : Z) : bool :=
  match n with
  | NFin neg m e =>
      let v := if neg then - m else m in
      if 0 <=? e then v * 2 ^ e =? k else v =? k * 2 ^ (- e)
  | _ => false
  end.

End js_number.

(** The options passed to [nodemailer.createTransport]. *)
Record transport : Type := mkTransport {
  tr_host : string;
  tr_port : jsnum;
  tr_secure : bool;
  tr_requireTLS : bool;
  tr_user : string;
  tr_pass : string
}.

(** [Number(process.env.SMTP_PORT || 587)] *)
Definition smtp_port (e : env) : jsnum :=
  match SMTP_PORT e with
  | Some s => if (s =? EmptyString)%string then NFin false 587 0 else js_Number s
  | None => NFin false 587 0
  end.

(** [getMailer()] *)
Definition getMailer (e : env) : option transport :=
  let port := smtp_port e in
  match SMTP_HOST e, SMTP_USER e, SMTP_PASS e with
  | Some host, Some user, Some pass =>
      if negb (env_truthy (Some host)) || negb (jsnum_truthy port)
         || negb (env_truthy (Some user)) || negb (env_truthy (Some pass))
      then None
      else
        let pass := strip_ws pass in
        Some (mkTransport host port (port_is port 465) (port_is port 587) user pass)
  | _, _, _ => None
  end.

(** ** The [leads] table *)

Record lead : Type := mkLead {
  lead_id : nat;
  createdAt : nat;
  lead_name : jsval;
  lead_email : jsval;
  lead_phone : jsval;
  lead_service : jsval;
  lead_message : jsval;
  lead_source : jsval
}.

(** The table in insertion order, the next AUTOINCREMENT key, and whether
    the database accepts statements. *)
Record store : Type := mkStore {
  rows : list lead;
  next_id : nat;
  db_ok : bool
}.

Definition empty_store : store := mkStore [] 1 true.

(** The destructured [payload] of [insertLead]. *)
Record payload : Type := mkPayload {
  p_name : option jsval;
  p_email : option jsval;
  p_phone : option jsval;
  p_service : option jsval;
  p_message : option jsval;
  p_source : option jsval
}.

(** A JS number string that the sqlite3 driver binds as an INTEGER: its
    value is an int32 ([Int32Value(v) == v]). JS prints such a number as an
    optional [-] and decimal digits. *)
Definition int32_repr (r : string) : bool :=
  let '(neg, u) := match r with
                   | String "-"%char u => (true, u)
                   | _ => (false, r)
                   end in
  match digits_prefix 10 0 0 u with
  | (v, n, rest) =>
      (0 <? n)%nat && (rest =? EmptyString)%string
      && (if neg then (v <=? 2 ^ 31)%Z else (v <? 2 ^ 31)%Z)
  end.

(** The cell a [?] parameter bound by the sqlite3 driver leaves in a TEXT
    column of [leads]: [undefined] and [null] bind as NULL; a boolean binds
    as the INTEGER 1 or 0 and an int32 number as an INTEGER, which TEXT
    affinity stores as their decimal text; any other object binds as the
    text [String(v)]. Another number binds as a REAL, stored with SQLite's
    own text form of the double; the model keeps it as that number. *)
Definition bind (o : option jsval) : jsval :=
  match o with
  | None | Some JNull => JNull
  | Some (JBool b) => JStr (if b then "1" else "0")
  | Some (JNum r) => if int32_repr r then JStr r else JNum r
  | Some (JStr s) => JStr s
  | Some (JObj r) => JStr r
  end.

(** A field of [req.body] used as a JS value in the mail code; the mails
    are only built from validated fields, so [undefined] is written as
    [null] where a value is required. *)
Definition js_value (o : option jsval) : jsval :=
  match o with Some v => v | None => JNull end.

(** [${v}] in a template literal; [undefined] gives ["undefined"]. *)
Definition js_tpl (o : option jsval) : string :=
  match o with Some v => js_String v | None => "undefined" end.

Definition is_null (v : jsval) : bool :=
  match v with JNull => true | _ => false end.

(** [insertLead(payload)]: the row gets [createdAt = now], [phone || EMPTY]
    and [source || unknown]; it resolves to [this.lastID]. A NULL in a
    NOT NULL column, or a database that refuses the statement, rejects. *)
Definition insertLead (st : store) (now : nat) (p : payload) : option (nat * store) :=
  let id := next_id st in
  let row := mkLead id now
               (bind (p_name p)) (bind (p_email p))
               (bind (Some (js_or (p_phone p) (JStr EmptyString))))
               (bind (p_service p)) (bind (p_message p))
               (bind (Some (js_or (p_source p) (JStr "unknown")))) in
  if db_ok st && negb (is_null (lead_name row) || is_null (lead_email row)
                       || is_null (lead_service row) || is_null (lead_message row))
  then Some (id, mkStore (rows st ++ [row]) (S id) true)
  else None.

(** [ORDER BY datetime(createdAt) DESC]: a stable sort, newest first (the
    order of equal timestamps is left to SQLite; the model keeps insertion
    order). *)
Fixpoint ins_desc (r : lead) (l : list lead) : list lead :=
  match l with
  | [] => [r]
  | x :: l' => if Nat.ltb (createdAt x) (createdAt r) then r :: l else x :: ins_desc r l'
  end.

Definition sort_desc (l : list lead) : list lead := fold_right ins_desc [] (rev l).

(** [SELECT * FROM leads ORDER BY datetime(createdAt) DESC] *)
Definition listAll (st : store) : option (list lead) :=
  if db_ok st then Some (sort_desc (rows st)) else None.

(** [DELETE FROM leads WHERE id = ?]: resolves to [this.changes]. *)
Definition deleteById (st : store) (id : nat) : option (nat * store) :=
  if db_ok st then
    let keep := filter (fun r => negb (Nat.eqb (lead_id r) id)) (rows st) in
    Some (length (rows st) - length keep, mkStore keep (next_id st) true)
  else None.

(** ** Mail *)

(** [String(n)] for the integer ids. *)
Definition nat_str (n : nat) : string := NilEmpty.string_of_uint (Nat.to_uint n).

(** The template literals below are written with a backquote for each
    double quote of the source; [tpl] puts the double quotes back. *)
Fixpoint tpl (s : string) : string :=
  match s with
  | EmptyString => EmptyString
  | String c s' =>
      String (if Ascii.eqb c "`"%char then ascii_of_nat 34 else c) (tpl s')
  end.

Definition nl : ascii := ascii_of_nat 10.

(** The options passed to [transporter.sendMail]. *)
Record mail : Type := mkMail {
  m_from : option string;
  m_to : jsval;
  m_subject : string;
  m_text : option string;
  m_html : option string;
  m_replyTo : option jsval
}.

(** The text of [sendOwnerEmail]. *)
Definition owner_text (id : nat) (name email phone service message : option jsval) : string :=
  "Nieuwe offerte aanvraag (id: " ++ nat_str id ++ ")

Naam: " ++ js_tpl name ++ "
E-mail: " ++ js_tpl email ++ "
Telefoon: " ++ js_String (js_or phone (JStr "-")) ++ "

Service: " ++ js_tpl service ++ "

Bericht:
" ++ js_tpl message ++ "
".

(** [sendOwnerEmail]: the mail it hands to the transport. *)
Definition owner_mail (from : option string) (to : string) (id : nat)
    (name email phone service message : option jsval) : mail :=
  mkMail from (JStr to) ("KC Detailing â€“ Offerte aanvraag: " ++ js_tpl service)
    (Some (owner_text id name email phone service message)) None email.

(** The html of [sendCustomerConfirmation]. *)
Definition confirmation_html (brand : string) (id : nat)
    (name phone service message : option jsval) : string :=
  tpl "
  <div style=`font-family:Arial,sans-serif;line-height:1.55;color:#111`>
    <h2 style=`margin:0 0 12px`>We hebben je aanvraag ontvangen</h2>
    <p style=`margin:0 0 10px`>
      Bedankt" ++ (if truthy_opt name then " " ++ escapeHtml name else EmptyString)
  ++ tpl ". We hebben je offerteaanvraag ontvangen en nemen zo snel mogelijk contact met je op.
    </p>

    <div style=`border:1px solid #eee;border-radius:10px;padding:14px;margin:14px 0`>
      <h3 style=`margin:0 0 10px;font-size:16px`>Samenvatting</h3>
      <table style=`border-collapse:collapse;width:100%;font-size:14px`>
        <tr><td style=`padding:6px 0;width:160px`><b>Referentie</b></td><td style=`padding:6px 0`>#"
  ++ nat_str id
  ++ tpl "</td></tr>
        <tr><td style=`padding:6px 0`><b>Dienst</b></td><td style=`padding:6px 0`>"
  ++ escapeHtml service
  ++ tpl "</td></tr>
        "
  ++ (if truthy_opt phone
      then tpl "<tr><td style=`padding:6px 0`><b>Telefoon</b></td><td style=`padding:6px 0`>"
           ++ escapeHtml phone ++ "</td></tr>"
      else EmptyString)
  ++ tpl "
      </table>

      "
  ++ (if truthy_opt message
      then tpl "<p style=`margin:10px 0 0`><b>Opmerking:</b><br/>"
           ++ replaceAll nl "<br/>" (escapeHtml message) ++ "</p>"
      else EmptyString)
  ++ tpl "
    </div>

    <p style=`margin:0`>
      Met vriendelijke groet,<br/>
      <b>" ++ escapeHtml (Some (JStr brand)) ++ tpl "</b>
    </p>
  </div>
  ".

(** [sendCustomerConfirmation]: the mail it hands to the transport. *)
Definition customer_mail (from : option string) (to : option jsval) (brand : string) (id : nat)
    (name phone service message : option jsval) : mail :=
  mkMail from (js_value to) ("Bevestiging offerteaanvraag â€“ " ++ brand) None
    (Some (confirmation_html brand id name phone service message)) None.

(** ** Requests, handlers and the world *)

(** The destructured [req.body || {}]. *)
Record body : Type := mkBody {
  b_name : option jsval;
  b_email : option jsval;
  b_phone : option jsval;
  b_service : option jsval;
  b_message : option jsval;
  b_source : option jsval
}.

Inductive response : Type :=
| RError (status : nat) (error : string)        (* [res.status(s).json({ok:false, error})] *)
| ROkId (id : nat)                              (* [res.json({ok:true, id})] *)
| ROkMailed (id : nat) (mailed confirmationMailed : bool)
| ROkRows (rows : list lead)                     (* [res.json({ok:true, rows})] *)
| ROkDeleted (deleted : nat).                    (* [res.json({ok:true, deleted})] *)

(** The database, the clock read by [new Date()], and every mail handed to
    the SMTP transport, in order. *)
Record world : Type := mkWorld {
  db : store;
  clock : nat;
  outbox : list (transport * mail)
}.

Definition set_db (w : world) (st : store) : world := mkWorld st (clock w) (outbox w).

(** Whether the SMTP server accepts a mail: [sendMail] resolves or rejects. *)
Definition smtp := transport -> mail -> bool.

(** [await transporter.sendMail(m)]: the attempt is recorded whatever its
    outcome. *)
Definition sendMail (net : smtp) (tr : transport) (m : mail) (w : world) : bool * world :=
  (net tr m, mkWorld (db w) (clock w) (outbox w ++ [(tr, m)])).

Definition fields_present (b : body) : bool :=
  truthy_opt (b_name b) && truthy_opt (b_email b)
  && truthy_opt (b_service b) && truthy_opt (b_message b).

(** [app.post("/api/leads", ...)] *)
Definition post_leads (b : body) (w : world) : response * world :=
  if negb (fields_present b) then (RError 400 "Missing fields", w)
  else if negb (isValidEmail (b_email b)) then (RError 400 "Invalid email", w)
  else
    match insertLead (db w) (clock w)
            (mkPayload (b_name b) (b_email b) (b_phone b) (b_service b) (b_message b) (b_source b)) with
    | None => (RError 500 "Insert failed", w)
    | Some (id, st) => (ROkId id, set_db w st)
    end.

(** [process.env.MAIL_FROM || process.env.SMTP_USER] *)
Definition mail_from (e : env) : option string :=
  if env_truthy (MAIL_FROM e) then MAIL_FROM e else SMTP_USER e.

(** [process.env.BRAND_NAME || "KC Detailing Studio"] *)
Definition brand_name (e : env) : string := env_or (BRAND_NAME e) "KC Detailing Studio".

(** [handleEmailLead], behind [/api/leads/email] and [/api/email]. Every
    rejection inside the [try] lands in the [catch]. *)
Definition handleEmailLead (e : env) (net : smtp) (b : body) (w : world) : response * world :=
  if negb (fields_present b) then (RError 400 "Missing fields", w)
  else if negb (isValidEmail (b_email b)) then (RError 400 "Invalid email", w)
  else
    match insertLead (db w) (clock w)
            (mkPayload (b_name b) (b_email b) (b_phone b) (b_service b) (b_message b)
               (Some (JStr "email"))) with
    | None => (RError 500 "Email send failed", w)
    | Some (id, st) =>
        let w := set_db w st in
        match MAIL_TO e with
        | Some ownerTo =>
            if negb (env_truthy (Some ownerTo)) then (RError 500 "MAIL_TO missing", w) else
            match getMailer e with
            | None => (RError 500 "SMTP config missing", w)
            | Some transporter =>
                let from := mail_from e in
                let brand := brand_name e in
                let (ok1, w) := sendMail net transporter
                    (owner_mail from ownerTo id (b_name b) (b_email b) (b_phone b)
                       (b_service b) (b_message b)) w in
                if negb ok1 then (RError 500 "Email send failed", w) else
                let (ok2, w) := sendMail net transporter
                    (customer_mail from (b_email b) brand id (b_name b) (b_phone b)
                       (b_service b) (b_message b)) w in
                if negb ok2 then (RError 500 "Email send failed", w)
                else (ROkMailed id true true, w)
            end
        | None => (RError 500 "MAIL_TO missing", w)
        end
    end.

(** ** [requireAdmin] and the admin routes *)

Record admin_req : Type := mkAdminReq {
  authorization : option string;   (* [req.headers.authorization] *)
  query_token : option jsval       (* [req.query.token] *)
}.

(** Node's HTTP parser hands a header value to [req.headers] without its
    leading and trailing spaces and tabs. *)
Definition is_ows (c : ascii) : bool :=
  match nat_of_ascii c with 9 | 32 => true | _ => false end.

Fixpoint drop_ows_l (s : string) : string :=
  match s with
  | String x s' => if is_ows x then drop_ows_l s' else s
  | EmptyString => EmptyString
  end.

Fixpoint drop_ows_r (s : string) : string :=
  match s with
  | EmptyString => EmptyString
  | String x s' =>
      let r := drop_ows_r s' in
      if (r =? EmptyString)%string && is_ows x then EmptyString else String x r
  end.

Definition node_header (h : string) : string := drop_ows_r (drop_ows_l h).

(** The request the guard sees when the client sends the Authorization
    header [h] (if any) and the query parameter [token] [q]. *)
Definition sent_request (h : option string) (q : option jsval) : admin_req :=
  mkAdminReq (option_map node_header h) q.

Inductive guard : Type :=
| Next                                   (* [next()] *)
| Deny (status : nat) (error : string).

(** [const bearer = req.headers.authorization?.replace("Bearer ", EMPTY);
     const token = bearer || req.query.token;] *)
Definition provided_token (r : admin_req) : option jsval :=
  match option_map (replace_first "Bearer " EmptyString) (authorization r) with
  | Some bearer => if (bearer =? EmptyString)%string then query_token r else Some (JStr bearer)
  | None => query_token r
  end.

(** [token !== ADMIN_TOKEN] *)
Definition strict_neq (t : option jsval) (s : string) : bool :=
  match t with Some (JStr x) => negb (x =? s)%string | _ => true end.

Definition requireAdmin (e : env) (r : admin_req) : guard :=
  let token := provided_token r in
  if (admin_token e =? EmptyString)%string then Deny 500 "ADMIN_TOKEN missing"
  else if strict_neq token (admin_token e) then Deny 401 "Unauthorized"
  else Next.

(** [app.get("/api/admin/leads", requireAdmin, ...)] *)
Definition get_admin_leads (e : env) (r : admin_req) (w : world) : response :=
  match requireAdmin e r with
  | Deny s m => RError s m
  | Next =>
      match listAll (db w) with
      | None => RError 500 "DB read failed"
      | Some l => ROkRows l
      end
  end.

(** [app.delete("/api/admin/leads/:id", requireAdmin, ...)]; [id] is the
    integer SQLite compares the [:id] parameter with. *)
Definition delete_admin_lead (e : env) (r : admin_req) (id : nat) (w : world) : response * world :=
  match requireAdmin e r with
  | Deny s m => (RError s m, w)
  | Next =>
      match deleteById (db w) id with
      | None => (RError 500 "DB delete failed", w)
      | Some (n, st) => (ROkDeleted n, set_db w st)
      end
  end.

(** ** Concrete inputs and auxiliary notions of the properties *)

Definition env_full : env :=
  mkEnv (Some "s3cret") None (Some "smtp.example.nl") (Some "465") (Some "kc@example.nl")
        (Some "abcd efgh ijkl mnop") (Some "owner@example.nl") None None.

Definition body_ann : body :=
  mkBody (Some (JStr "Ann")) (Some (JStr "ann@example.com")) None
         (Some (JStr "wash")) (Some (JStr "please quote")) None.

Definition world0 : world := mkWorld empty_store 1000 [].

Definition accept_all : smtp := fun _ _ => true.

Ltac fields_split H :=
  unfold fields_present in H;
  repeat match type of H with
         | (_ && _) = true => apply andb_prop in H; destruct H as [H ?]
         end.

Ltac split_ifs :=
  repeat first
    [ match goal with
      | |- context [if ?c then _ else _] => destruct c
      | |- context [match ?x with Some _ => _ | None => _ end] => destruct x
      end ].

Definition absent_or_empty (o : option jsval) : Prop :=
  o = None \/ o = Some (JStr EmptyString).

Definition env_no_mail_to : env :=
  mkEnv (Some "s3cret") None (Some "smtp.example.nl") (Some "465") (Some "kc@example.nl")
        (Some "pw") None None None.

Fixpoint all_chars (p : ascii -> bool) (s : string) : bool :=
  match s with
  | EmptyString => true
  | String c s' => p c && all_chars p s'
  end.

(** The shape the regular expression accepts: [local@domain.tld], every
    part free of whitespace and [@], the local part and the domain
    non-empty, the part after the last-matched dot at least two long. *)
Definition email_shape (s : string) : Prop :=
  exists l d t,
    s = (l ++ String "@"%char (d ++ String "."%char t))%string /\
    all_chars not_ws_at l = true /\ 1 <= String.length l /\
    all_chars not_ws_at d = true /\ 1 <= String.length d /\
    all_chars not_ws_at t = true /\ 2 <= String.length t.

Definition body_with_email (v : jsval) : body :=
  mkBody (Some (JStr "Ann")) (Some v) None (Some (JStr "wash")) (Some (JStr "please quote")) None.

(** Whether [pat] occurs in [s] ([s.includes(pat)]). *)
Fixpoint occurs (pat s : string) : bool :=
  prefix pat s || match s with
                  | EmptyString => false
                  | String _ s' => occurs pat s'
                  end.

(** C2 as the spec words it: the token of a present Authorization header
    (with a leading "Bearer " removed), otherwise the [token] query
    parameter. *)
Definition claim_provided_token (r : admin_req) : option jsval :=
  match authorization r with
  | Some h =>
      if prefix "Bearer " h
      then Some (JStr (substring 7 (String.length h - 7) h))
      else Some (JStr h)
  | None => query_token r
  end.

Definition env_secret (s : string) : env :=
  mkEnv (Some s) None None None None None None None None.

Definition req_mid_bearer : admin_req := sent_request (Some "aBearer bc") None.

(** A complete mail configuration with the given [SMTP_PORT]. *)
Definition env_port (port : string) : env :=
  mkEnv None None (Some "smtp.example.nl") (Some port) (Some "kc@example.nl")
        (Some " abcd	efgh ") (Some "owner@example.nl") None None.

(** The invariant of every table the handlers build from [empty_store]:
    ids are distinct and below the next AUTOINCREMENT key. *)
Definition wf (st : store) : Prop :=
  Forall (fun r => lead_id r < next_id st) (rows st) /\ NoDup (map lead_id (rows st)).

Definition store_ann : store :=
  mkStore [mkLead 1 5 (JStr "Ann") (JStr "a@b.co") (JStr EmptyString) (JStr "wash")
             (JStr "hi") (JStr "unknown")] 2 true.

Definition payload_ann : payload :=
  mkPayload (Some (JStr "Ann")) (Some (JStr "a@b.co")) None (Some (JStr "wash")) (Some (JStr "hi")) None.


(** The entity each reserved character becomes. *)
Definition esc_char (c : ascii) : string :=
  if Ascii.eqb c "&"%char then "&amp;"
  else if Ascii.eqb c "<"%char then "&lt;"
  else if Ascii.eqb c ">"%char then "&gt;"
  else if Ascii.eqb c (ascii_of_nat 34) then "&quot;"
  else if Ascii.eqb c "'"%char then "&#039;"
  else String c EmptyString.

Fixpoint esc_str (s : string) : string :=
  match s with
  | EmptyString => EmptyString
  | String c s' => (esc_char c ++ esc_str s')%string
  end.

Definition is_markup (c : ascii) : bool :=
  Ascii.eqb c "<"%char || Ascii.eqb c ">"%char || Ascii.eqb c (ascii_of_nat 34)
  || Ascii.eqb c "'"%char.

(** The characters of [s] that delimit tags and attribute values. *)
Fixpoint markup (s : string) : string :=
  match s with
  | EmptyString => EmptyString
  | String c s' => if is_markup c then String c (markup s') else markup s'
  end.

(** Decoding of the five entities. *)
Fixpoint unescape (s : string) : string :=
  match s with
  | String "&" (String "a" (String "m" (String "p" (String ";" r)))) => String "&" (unescape r)
  | String "&" (String "l" (String "t" (String ";" r))) => String "<" (unescape r)
  | String "&" (String "g" (String "t" (String ";" r))) => String ">" (unescape r)
  | String "&" (String "q" (String "u" (String "o" (String "t" (String ";" r))))) =>
      String (ascii_of_nat 34) (unescape r)
  | String "&" (String "#" (String "0" (String "3" (String "9" (String ";" r))))) =>
      String "'" (unescape r)
  | String c r => String c (unescape r)
  | EmptyString => EmptyString
  end.

Fixpoint count_char (c : ascii) (s : string) : nat :=
  match s with
  | EmptyString => 0
  | String x s' => (if Ascii.eqb x c then 1 else 0) + count_char c s'
  end.

Fixpoint str_repeat (s : string) (n : nat) : string :=
  match n with O => EmptyString | S n' => (s ++ str_repeat s n')%string end.

Definition esc_chain (s : string) : string :=
  replaceAll "'"%char "&#039;"
    (replaceAll (ascii_of_nat 34) "&quot;"
       (replaceAll ">"%char "&gt;"
          (replaceAll "<"%char "&lt;"
             (replaceAll "&"%char "&amp;" s)))).

Definition script_message : option jsval := Some (JStr "<script>alert(1)</script>").

(** The order [listAll] promises: each row is at least as recent as the
    next one. *)
Definition newer_first (a b : lead) : Prop := createdAt b <= createdAt a.

(** The payload [handleEmailLead] passes to [insertLead]. *)
Definition email_payload (b : body) : payload :=
  mkPayload (b_name b) (b_email b) (b_phone b) (b_service b) (b_message b) (Some (JStr "email")).

(** The five characters [escapeHtml] rewrites. *)
Definition is_reserved (c : ascii) : bool := Ascii.eqb c "&"%char || is_markup c.

(** ** CORS *)

(** [s.split(",")]: the pieces between commas, empty ones included. *)
Fixpoint split_comma (s : string) : list string :=
  match s with
  | EmptyString => [EmptyString]
  | String c s' =>
      let rest := split_comma s' in
      if Ascii.eqb c ","%char then EmptyString :: rest
      else match rest with
           | x :: xs => String c x :: xs
           | [] => [String c EmptyString]
           end
  end.

(** [(process.env.CORS_ORIGINS || "*").split(",").map((s) => s.trim()).filter(Boolean)] *)
Definition cors_origins (v : option string) : list string :=
  filter (fun x => negb (x =? EmptyString)%string) (map trim (split_comma (env_or v "*"))).

(** [o.includes("*")] *)
Definition has_star (o : string) : bool := occurs "*" o.

(** The characters that [new RegExp] reads as syntax. The rule string is
    turned into a pattern by escaping [.] and rewriting [*] to [.*]; the
    model covers wildcard rules free of the other syntax characters. *)
Definition regex_syntax (c : ascii) : bool :=
  existsb (Ascii.eqb c) (list_ascii_of_string "^$\+?()[]{}|").

(** The characters the regex dot does not match. *)
Definition line_terminator (c : ascii) : bool :=
  Ascii.eqb c (ascii_of_nat 10) || Ascii.eqb c (ascii_of_nat 13).

Definition no_star (c : ascii) : bool := negb (Ascii.eqb c "*"%char).

Definition no_lt (c : ascii) : bool := negb (line_terminator c).

(** [new RegExp("^" + o.replace(/\./g, "\\.").replace(/\*/g, ".*") + "$").test(origin)]
    for a rule free of the other syntax characters: each character is
    literal, each [*] matches any run of characters other than line
    terminators, and the whole origin must match. *)
Fixpoint glob (p s : string) : bool :=
  match p with
  | EmptyString => (s =? EmptyString)%string
  | String c p' =>
      if Ascii.eqb c "*"%char then
        (fix star (s : string) : bool :=
           glob p' s || match s with
                        | String x s' => negb (line_terminator x) && star s'
                        | EmptyString => false
                        end) s
      else match s with
           | String x s' => Ascii.eqb c x && glob p' s'
           | EmptyString => false
           end
  end.

Inductive cors_result : Type :=
| CorsAllow            (* [cb(null, true)] *)
| CorsBlock            (* [cb(new Error("CORS blocked: ..."))] *)
| CorsUnmodelled.      (* a wildcard rule with other regex syntax was reached *)

(** [CORS_ORIGINS.some((o) => ...)] *)
Fixpoint wildcard_some (rules : list string) (origin : string) : cors_result :=
  match rules with
  | [] => CorsBlock
  | o :: rs =>
      if negb (has_star o) then wildcard_some rs origin
      else if existsb regex_syntax (list_ascii_of_string o) then CorsUnmodelled
      else if glob o origin then CorsAllow
      else wildcard_some rs origin
  end.

(** [corsOptions.origin(origin, cb)] *)
Definition cors_origin (rules : list string) (origin : option string) : cors_result :=
  match origin with
  | None => CorsAllow
  | Some o =>
      if (o =? EmptyString)%string then CorsAllow
      else if existsb (fun r => (r =? "*")%string) rules then CorsAllow
      else if existsb (fun r => (r =? o)%string) rules then CorsAllow
      else wildcard_some rules o
  end.

(** * Properties *)

(** ** Concrete runs *)

Example isValidEmail_ok : isValidEmail (Some (JStr "a@b.co")) = true.
Proof. reflexivity. Qed.

Example isValidEmail_ko : isValidEmail (Some (JStr "not-an-email")) = false.
Proof. reflexivity. Qed.

Example isValidEmail_trim : isValidEmail (Some (JStr " x.y@mail.example.nl ")) = true.
Proof. reflexivity. Qed.

Example isValidEmail_short_tld : isValidEmail (Some (JStr "a@b.c")) = false.
Proof. reflexivity. Qed.

Example escapeHtml_script :
  escapeHtml (Some (JStr "<script>&amp;")) = "&lt;script&gt;&amp;amp;".
Proof. reflexivity. Qed.

Example replace_first_mid : replace_first "Bearer " EmptyString "xBearer abc" = "xabc".
Proof. reflexivity. Qed.

Example post_leads_ann :
  match post_leads body_ann world0 with
  | (ROkId 1, w) =>
      match get_admin_leads env_full (mkAdminReq (Some "Bearer s3cret") None) w with
      | ROkRows [r] => lead_source r = JStr "unknown"
      | _ => False
      end
  | _ => False
  end.
Proof. vm_compute. reflexivity. Qed.

Example handleEmailLead_ann :
  match handleEmailLead env_full accept_all body_ann world0 with
  | (ROkMailed 1 true true, w) => length (outbox w) = 2
  | _ => False
  end.
Proof. vm_compute. reflexivity. Qed.

Example getMailer_full :
  option_map tr_pass (getMailer env_full) = Some "abcdefghijklmnop".
Proof. vm_compute. reflexivity. Qed.

(** ** Store and handler lemmas *)

Lemma ins_desc_perm : forall r l, Permutation (ins_desc r l) (r :: l).
Proof.
  induction l as [|x l IH]; simpl; [reflexivity|].
  destruct (Nat.ltb (createdAt x) (createdAt r)); [reflexivity|].
  rewrite IH. apply perm_swap.
Qed.

Lemma sort_desc_perm : forall l, Permutation (sort_desc l) l.
Proof.
  intro l. unfold sort_desc.
  rewrite <- (rev_involutive l) at 2.
  generalize (rev l) as m. clear l.
  induction m as [|x m IH]; simpl; [reflexivity|].
  rewrite ins_desc_perm, IH. apply Permutation_cons_append.
Qed.

Lemma insertLead_spec : forall st now p id st',
  insertLead st now p = Some (id, st') ->
  db_ok st = true /\ id = next_id st /\ next_id st' = S id /\ db_ok st' = true /\
  rows st' = app (rows st)
    [mkLead id now (bind (p_name p)) (bind (p_email p))
       (bind (Some (js_or (p_phone p) (JStr EmptyString))))
       (bind (p_service p)) (bind (p_message p))
       (bind (Some (js_or (p_source p) (JStr "unknown"))))].
Proof.
  intros st now p id st' H. unfold insertLead in H.
  destruct (db_ok st) eqn:Hok; simpl in H; [|discriminate].
  destruct (negb _); inversion H; subst; simpl; auto 6.
Qed.

Lemma bind_truthy_not_null : forall o, truthy_opt o = true -> is_null (bind o) = false.
Proof.
  intros [[|b|r|s|r]|] H; simpl in *; try discriminate; try reflexivity.
  destruct (int32_repr r); reflexivity.
Qed.

Lemma insertLead_some : forall st now p,
  db_ok st = true ->
  truthy_opt (p_name p) = true -> truthy_opt (p_email p) = true ->
  truthy_opt (p_service p) = true -> truthy_opt (p_message p) = true ->
  exists st', insertLead st now p = Some (next_id st, st').
Proof.
  intros st now p Hok Hn He Hs Hm.
  unfold insertLead; cbn [lead_name lead_email lead_service lead_message].
  rewrite Hok, (bind_truthy_not_null _ Hn), (bind_truthy_not_null _ He),
    (bind_truthy_not_null _ Hs), (bind_truthy_not_null _ Hm).
  eexists; reflexivity.
Qed.

Lemma fields_present_false : forall b,
  truthy_opt (b_name b) = false \/ truthy_opt (b_email b) = false \/
  truthy_opt (b_service b) = false \/ truthy_opt (b_message b) = false ->
  fields_present b = false.
Proof.
  intros b H; unfold fields_present.
  destruct H as [H|[H|[H|H]]]; rewrite H; simpl;
    repeat rewrite andb_false_r; reflexivity.
Qed.

Lemma absent_or_empty_falsy : forall o, absent_or_empty o -> truthy_opt o = false.
Proof. intros o [-> | ->]; reflexivity. Qed.

Lemma getMailer_incomplete : forall e,
  env_truthy (SMTP_HOST e) = false \/ env_truthy (SMTP_USER e) = false \/
  env_truthy (SMTP_PASS e) = false ->
  getMailer e = None.
Proof.
  intros e H; unfold getMailer.
  destruct (SMTP_HOST e) as [h|], (SMTP_USER e) as [u|], (SMTP_PASS e) as [pw|];
    try reflexivity.
  destruct H as [H|[H|H]]; rewrite H; simpl;
    repeat rewrite orb_true_r; reflexivity.
Qed.

(** C3. On both intake endpoints, a submission where one of [name],
    [email], [service], [message] is absent or the empty string gets the
    400 response "Missing fields" and leaves the world (database and sent
    mail) as it was. *)
Theorem missing_fields_no_insert : forall e net b w,
  absent_or_empty (b_name b) \/ absent_or_empty (b_email b) \/
  absent_or_empty (b_service b) \/ absent_or_empty (b_message b) ->
  post_leads b w = (RError 400 "Missing fields", w) /\
  handleEmailLead e net b w = (RError 400 "Missing fields", w).
Proof.
  intros e net b w H.
  assert (Hf : fields_present b = false).
  { apply fields_present_false.
    destruct H as [H|[H|[H|H]]]; apply absent_or_empty_falsy in H; tauto. }
  unfold post_leads, handleEmailLead; rewrite Hf; simpl; split; reflexivity.
Qed.

Lemma missing_fields_no_insert_witness :
  absent_or_empty (b_name (mkBody None (Some (JStr "a@b.co")) None
                             (Some (JStr "wash")) (Some (JStr "hi")) None)) /\
  post_leads (mkBody None (Some (JStr "a@b.co")) None (Some (JStr "wash")) (Some (JStr "hi")) None)
    world0 = (RError 400 "Missing fields", world0).
Proof.
  split.
  - left; reflexivity.
  - apply (missing_fields_no_insert env_full accept_all
             (mkBody None (Some (JStr "a@b.co")) None (Some (JStr "wash")) (Some (JStr "hi")) None)
             world0).
    left; left; reflexivity.
Defined.




Lemma listAll_contains_last : forall st l row,
  db_ok st = true -> rows st = app l [row] ->
  exists l', listAll st = Some l' /\ In row l'.
Proof.
  intros st l row Hok Hr. unfold listAll; rewrite Hok.
  eexists; split; [reflexivity|].
  eapply Permutation_in; [symmetry; apply sort_desc_perm|].
  rewrite Hr; apply in_or_app; right; left; reflexivity.
Qed.

(** C1. On the store-and-notify endpoint, a complete submission with a
    valid email on a working database, while [MAIL_TO] or one of
    [SMTP_HOST], [SMTP_USER], [SMTP_PASS] is absent or empty, gets a 500
    response, no mail is handed to the transport, and the lead is stored:
    the next [listAll] holds the new row with the submitted fields and
    source "email". *)
Theorem notify_misconfig_keeps_lead : forall e net b w,
  fields_present b = true -> isValidEmail (b_email b) = true -> db_ok (db w) = true ->
  env_truthy (MAIL_TO e) = false \/ env_truthy (SMTP_HOST e) = false \/
  env_truthy (SMTP_USER e) = false \/ env_truthy (SMTP_PASS e) = false ->
  exists msg w' l row,
    handleEmailLead e net b w = (RError 500 msg, w') /\
    outbox w' = outbox w /\
    listAll (db w') = Some l /\ In row l /\
    lead_id row = next_id (db w) /\
    lead_name row = bind (b_name b) /\ lead_email row = bind (b_email b) /\
    lead_service row = bind (b_service b) /\ lead_message row = bind (b_message b) /\
    lead_source row = JStr "email".
Proof.
  intros e net b w Hf Hv Hok Hcfg.
  pose proof Hf as Hf'. fields_split Hf'.
  set (p := mkPayload (b_name b) (b_email b) (b_phone b) (b_service b) (b_message b)
              (Some (JStr "email"))).
  destruct (insertLead_some (db w) (clock w) p Hok) as [st' Hins]; simpl; auto.
  pose proof (insertLead_spec _ _ _ _ _ Hins) as (_ & _ & _ & Hok' & Hrows).
  destruct (listAll_contains_last _ _ _ Hok' Hrows) as (l & Hl & Hin).
  assert (Hres : exists msg, handleEmailLead e net b w = (RError 500 msg, set_db w st')).
  { unfold handleEmailLead; rewrite Hf, Hv; simpl. fold p. rewrite Hins.
    destruct (MAIL_TO e) as [mt|] eqn:Hmt; [|eexists; reflexivity].
    destruct (mt =? EmptyString)%string eqn:Ht; simpl; [eexists; reflexivity|].
    rewrite getMailer_incomplete; [eexists; reflexivity|].
    destruct Hcfg as [Hc|Hc]; [simpl in Hc; rewrite Ht in Hc; discriminate|exact Hc]. }
  destruct Hres as [msg Hres].
  eexists msg, (set_db w st'), l, _; split; [exact Hres|].
  split; [reflexivity|]. split; [exact Hl|]. split; [exact Hin|].
  simpl; repeat split; reflexivity.
Qed.

Lemma notify_misconfig_keeps_lead_witness :
  exists msg w' l row,
    handleEmailLead env_no_mail_to accept_all body_ann world0 = (RError 500 msg, w') /\
    outbox w' = [] /\ listAll (db w') = Some l /\ In row l /\ lead_id row = 1 /\
    lead_name row = JStr "Ann" /\ lead_email row = JStr "ann@example.com" /\
    lead_service row = JStr "wash" /\ lead_message row = JStr "please quote" /\
    lead_source row = JStr "email".
Proof.
  exact (notify_misconfig_keeps_lead env_no_mail_to accept_all body_ann world0
           eq_refl eq_refl eq_refl (or_introl eq_refl)).
Defined.

(** ** The email pattern *)

Lemma str_app_nil_r : forall s, (s ++ EmptyString)%string = s.
Proof. induction s; simpl; congruence. Qed.

Lemma str_app_eq_nil : forall x r, (x ++ r)%string = EmptyString -> x = EmptyString /\ r = EmptyString.
Proof. destruct x; simpl; [auto|discriminate]. Qed.

Lemma in_star_rests : forall p s r,
  In r (star_rests p s) <-> exists x, s = (x ++ r)%string /\ all_chars p x = true.
Proof.
  intros p s; induction s as [|c s IH]; intro r; simpl; split.
  - intros [<-|[]]. exists EmptyString; auto.
  - intros (x & Hx & _). symmetry in Hx. apply str_app_eq_nil in Hx as [-> ->]. auto.
  - intros [<-|H].
    + exists EmptyString; auto.
    + destruct (p c) eqn:Hp; [|destruct H].
      apply IH in H as (x & -> & Hx). exists (String c x); simpl; rewrite Hp; auto.
  - intros ([|c' x] & Hs & Hx); simpl in Hs.
    + left; auto.
    + right. injection Hs as -> Hs. simpl in Hx. apply andb_prop in Hx as [-> Hx].
      apply IH. eauto.
Qed.

Lemma in_atleast_rests : forall n p s r,
  In r (atleast_rests n p s) <->
  exists x, s = (x ++ r)%string /\ all_chars p x = true /\ n <= String.length x.
Proof.
  induction n as [|n IH]; intros p s r; simpl.
  - rewrite in_star_rests. split.
    + intros (x & ? & ?). exists x; repeat split; auto; lia.
    + intros (x & ? & ? & _). eauto.
  - destruct s as [|c s]; split.
    + intros [].
    + intros ([|c' x] & Hs & _ & Hl); simpl in *; [lia|discriminate].
    + destruct (p c) eqn:Hp; [|intros []].
      intros H; apply IH in H as (x & -> & Hx & Hl).
      exists (String c x); simpl; rewrite Hp; repeat split; auto; lia.
    + intros ([|c' x] & Hs & Hx & Hl); simpl in *; [lia|].
      injection Hs as -> Hs. apply andb_prop in Hx as [-> Hx].
      apply IH. exists x; repeat split; auto; lia.
Qed.

Lemma in_step_lit : forall c s r, In r (step (Lit c) s) <-> s = String c r.
Proof.
  intros c [|x s] r; simpl; split; try (intros []; fail); try discriminate.
  - destruct (Ascii.eqb x c) eqn:E; [|intros []].
    intros [<-|[]]. apply Ascii.eqb_eq in E; subst; reflexivity.
  - intros H; injection H as -> ->. rewrite Ascii.eqb_refl. left; reflexivity.
Qed.

Lemma in_fold_run : forall re ss r,
  In r (fold_left (fun ss a => flat_map (step a) ss) re ss) <->
  exists s0, In s0 ss /\ In r (run re s0).
Proof.
  unfold run.
  induction re as [|a re IH]; intros ss r; simpl.
  - split; [eauto|]. intros (s0 & H & [<-|[]]); exact H.
  - rewrite IH. split.
    + intros (m & Hm & Hr). apply in_flat_map in Hm as (s0 & Hs0 & Hm).
      exists s0; split; auto. apply IH. exists m; split; auto.
      rewrite app_nil_r; exact Hm.
    + intros (s0 & Hs0 & Hr). apply IH in Hr as (m & Hm & Hr).
      rewrite app_nil_r in Hm. exists m; split; auto.
      apply in_flat_map; eauto.
Qed.

Lemma in_run_cons : forall a re s r,
  In r (run (a :: re) s) <-> exists m, In m (step a s) /\ In r (run re m).
Proof.
  intros a re s r. unfold run at 1. simpl. rewrite app_nil_r.
  apply in_fold_run.
Qed.

Lemma email_re_shape : forall s, re_test email_re s = true <-> email_shape s.
Proof.
  intro s. unfold re_test. rewrite existsb_exists.
  assert (E : (exists r, In r (run email_re s) /\ (r =? EmptyString)%string = true)
              <-> In EmptyString (run email_re s)).
  { split.
    - intros (r & H & Hr). apply String.eqb_eq in Hr; subst; exact H.
    - intro H; exists EmptyString; split; [exact H|apply String.eqb_refl]. }
  rewrite E. unfold email_re, email_shape.
  repeat setoid_rewrite in_run_cons.
  setoid_rewrite in_atleast_rests. setoid_rewrite in_step_lit.
  unfold run; simpl. split.
  - intros (m1 & (l & -> & Hl & Ll) & m2 & -> & m3 & (d & -> & Hd & Ld) & m4 & -> &
            m5 & (t & -> & Ht & Lt) & [Hm5|[]]).
    subst m5. exists l, d, t. rewrite str_app_nil_r. repeat split; auto.
  - intros (l & d & t & -> & Hl & Ll & Hd & Ld & Ht & Lt).
    exists (String "@"%char (d ++ String "."%char t)); split.
    { exists l; repeat split; auto. }
    exists (d ++ String "."%char t)%string; split; [reflexivity|].
    exists (String "."%char t); split.
    { exists d; repeat split; auto. }
    exists t; split; [reflexivity|].
    exists EmptyString; split; [|left; reflexivity].
    exists t; rewrite str_app_nil_r; repeat split; auto.
Qed.



(** ** The admin guard *)

Lemma str_app_assoc : forall a b c, (a ++ (b ++ c))%string = ((a ++ b) ++ c)%string.
Proof. induction a; simpl; congruence. Qed.

Lemma str_length_app : forall a b, String.length (a ++ b) = String.length a + String.length b.
Proof. intros a b. induction a as [|c a IH]; simpl; [reflexivity|]. rewrite IH. reflexivity. Qed.

Lemma str_app_nil : forall s, (s ++ EmptyString)%string = s.
Proof. induction s as [|c s IH]; simpl; congruence. Qed.

Lemma prefix_app : forall p t, prefix p (p ++ t) = true.
Proof.
  induction p as [|c p IH]; intro t; simpl; [destruct t; reflexivity|].
  destruct (ascii_dec c c); [apply IH|contradiction].
Qed.

Lemma substring_all : forall t, substring 0 (String.length t) t = t.
Proof. induction t; simpl; congruence. Qed.

Lemma substring_app : forall p t,
  substring (String.length p) (String.length (p ++ t) - String.length p) (p ++ t) = t.
Proof.
  induction p as [|c p IH]; intro t; simpl.
  - rewrite Nat.sub_0_r. apply substring_all.
  - apply IH.
Qed.

Lemma replace_first_prefix : forall pat rep t,
  replace_first pat rep (pat ++ t) = (rep ++ t)%string.
Proof.
  intros pat rep t. destruct pat as [|c p].
  - destruct t; simpl; rewrite ?Nat.sub_0_r, ?substring_all; reflexivity.
  - pose proof (prefix_app (String c p) t) as Hp.
    pose proof (substring_app (String c p) t) as Hs.
    simpl in Hp, Hs |- *. rewrite Hp. f_equal. exact Hs.
Qed.

Lemma replace_first_absent : forall pat rep s,
  occurs pat s = false -> replace_first pat rep s = s.
Proof.
  intros pat rep s; induction s as [|c s IH]; intro H; cbn [occurs] in H;
    apply orb_false_iff in H as [Hp Ho]; cbn [replace_first]; rewrite Hp.
  - reflexivity.
  - f_equal. apply IH, Ho.
Qed.

Lemma prefix_split : forall p s,
  prefix p s = true ->
  s = (p ++ substring (String.length p) (String.length s - String.length p) s)%string.
Proof.
  induction p as [|a p IH]; intros s H.
  - simpl. rewrite Nat.sub_0_r, substring_all. reflexivity.
  - destruct s as [|b s]; [discriminate|].
    simpl in H. destruct (ascii_dec a b) as [<-|]; [|discriminate].
    simpl. f_equal. apply IH, H.
Qed.

Lemma prefix_app_long : forall p s t,
  String.length p <= String.length s -> prefix p (s ++ t) = prefix p s.
Proof.
  induction p as [|a p IH]; intros [|b s] t H; simpl in *; try lia;
    try (destruct t; reflexivity).
  destruct (ascii_dec a b); [apply IH; lia|reflexivity].
Qed.


Lemma replace_first_empty : forall pat s,
  replace_first pat EmptyString s = EmptyString -> s = EmptyString \/ s = pat.
Proof.
  intros pat [|x s] H; [left; reflexivity|right].
  revert H; cbn [replace_first]. destruct (prefix pat (String x s)) eqn:Hp; intro H.
  - pose proof (prefix_split _ _ Hp) as E. cbn [append] in H.
    rewrite H, str_app_nil in E. exact E.
  - discriminate.
Qed.

(** [s.replace(pat, EMPTY)] removes the first occurrence of [pat = b ++ ch],
    wherever it stands. *)
Lemma replace_first_first : forall b ch a c,
  occurs (b ++ String ch EmptyString) (a ++ b) = false ->
  replace_first (b ++ String ch EmptyString) EmptyString (a ++ b ++ String ch c)
  = (a ++ c)%string.
Proof.
  intros b ch a c; induction a as [|x a IH]; intro H.
  - cbn [append].
    replace (b ++ String ch c)%string with ((b ++ String ch EmptyString) ++ c)%string
      by (rewrite <- str_app_assoc; reflexivity).
    rewrite replace_first_prefix. reflexivity.
  - cbn [append occurs] in H |- *. apply orb_false_iff in H as [Hp Ho].
    cbn [replace_first].
    replace (String x (a ++ b ++ String ch c))
      with (String x (a ++ b) ++ String ch c)%string
      by (simpl; rewrite str_app_assoc; reflexivity).
    rewrite prefix_app_long, Hp.
    + rewrite <- IH by exact Ho. simpl. rewrite str_app_assoc. reflexivity.
    + simpl. rewrite !str_length_app. simpl. lia.
Qed.

Lemma drop_ows_r_no_trailing_sp : forall s x, drop_ows_r s <> (x ++ " ")%string.
Proof.
  induction s as [|c s IH]; intros x H.
  - destruct x; discriminate.
  - cbn [drop_ows_r] in H.
    destruct (drop_ows_r s =? EmptyString)%string eqn:Hr; simpl in H.
    + apply String.eqb_eq in Hr. rewrite Hr in H.
      destruct (is_ows c) eqn:Hc; [destruct x; discriminate|].
      destruct x as [|y x]; simpl in H.
      * injection H as ->. vm_compute in Hc. discriminate.
      * injection H as _ H. destruct x; discriminate.
    + destruct (is_ows c); destruct x as [|y x]; simpl in H.
      * injection H as _ H. rewrite H in Hr. discriminate.
      * injection H as _ H. exact (IH x H).
      * injection H as _ H. rewrite H in Hr. discriminate.
      * injection H as _ H. exact (IH x H).
Qed.

Lemma node_header_not_bearer_sp : forall h, node_header h <> "Bearer ".
Proof. intro h. exact (drop_ows_r_no_trailing_sp _ "Bearer"). Qed.

Lemma bearer_removed_empty : forall h,
  h <> "Bearer " -> replace_first "Bearer " EmptyString h = EmptyString -> h = EmptyString.
Proof.
  intros h Hb H. destruct (replace_first_empty _ _ H); [assumption|contradiction].
Qed.

Lemma provided_token_header : forall r h,
  authorization r = Some h ->
  replace_first "Bearer " EmptyString h <> EmptyString ->
  provided_token r = Some (JStr (replace_first "Bearer " EmptyString h)).
Proof.
  intros r h Ha Hne. unfold provided_token. rewrite Ha. cbn [option_map].
  apply String.eqb_neq in Hne. rewrite Hne. reflexivity.
Qed.

Lemma requireAdmin_configured : forall e r,
  admin_token e <> EmptyString ->
  (requireAdmin e r = Next <-> provided_token r = Some (JStr (admin_token e))) /\
  (requireAdmin e r <> Next -> requireAdmin e r = Deny 401 "Unauthorized").
Proof.
  intros e r Hs. unfold requireAdmin.
  apply String.eqb_neq in Hs. rewrite Hs.
  unfold strict_neq.
  destruct (provided_token r) as [[| | | x |]|]; simpl;
    try (split; [split; [discriminate|intros H; discriminate H]|reflexivity]).
  destruct (x =? admin_token e)%string eqn:Ex; simpl.
  - apply String.eqb_eq in Ex; subst. split; [tauto|]. intros H; contradiction.
  - split; [|reflexivity]. split; [discriminate|].
    intros H; injection H as ->. rewrite String.eqb_refl in Ex. discriminate.
Qed.

Lemma provided_token_bearer : forall r t,
  t <> EmptyString -> authorization r = Some ("Bearer " ++ t)%string ->
  provided_token r = Some (JStr t).
Proof.
  intros r t Ht Ha. unfold provided_token. rewrite Ha. cbn [option_map].
  rewrite (replace_first_prefix "Bearer " EmptyString t). cbn [append].
  apply String.eqb_neq in Ht. rewrite Ht. reflexivity.
Qed.

(** C2 fails: the header "aBearer bc" reaches the guard unchanged and is
    not a "Bearer" header; the code removes the "Bearer " inside it and
    lets the request through with the secret "abc", while the token the
    claim takes from the header (or, for a header that is not a "Bearer"
    header, from the absent query parameter) is not the secret. *)
Lemma guard_mid_bearer_counterexample :
  node_header "aBearer bc" = "aBearer bc" /\
  prefix "Bearer " "aBearer bc" = false /\
  query_token req_mid_bearer = None /\
  ~ (requireAdmin (env_secret "abc") req_mid_bearer = Next <->
     (admin_token (env_secret "abc") <> EmptyString /\
      claim_provided_token req_mid_bearer = Some (JStr (admin_token (env_secret "abc"))))).
Proof.
  split; [reflexivity|]. split; [reflexivity|]. split; [reflexivity|].
  vm_compute. intros [H _]. destruct (H eq_refl) as [_ Habs]. discriminate.
Qed.

(** C2 (amended). The secret is [ADMIN_TOKEN], else [ADMIN_API_KEY]. When
    it is empty every request is denied with 500 "ADMIN_TOKEN missing".
    Otherwise the request passes exactly when the provided token is the
    string equal to the secret, and is denied with 401 "Unauthorized"
    else. The provided token is the Authorization header with the first
    occurrence of "Bearer " removed, wherever it stands, when that leaves
    a non-empty string ("Bearer t" gives t, "aBearer c" gives "ac", a
    header without "Bearer " is taken whole); it is the [token] query
    parameter when the header is absent or leaves the empty string. A
    header as Node delivers it (no leading or trailing space or tab)
    leaves the empty string only when it is empty. *)
Theorem guard_exact_match : forall e r,
  (admin_token e = EmptyString -> requireAdmin e r = Deny 500 "ADMIN_TOKEN missing") /\
  (admin_token e <> EmptyString ->
     (requireAdmin e r = Next <-> provided_token r = Some (JStr (admin_token e))) /\
     (requireAdmin e r <> Next -> requireAdmin e r = Deny 401 "Unauthorized")) /\
  (forall h, authorization r = Some h -> replace_first "Bearer " EmptyString h <> EmptyString ->
     provided_token r = Some (JStr (replace_first "Bearer " EmptyString h))) /\
  (forall t, t <> EmptyString -> authorization r = Some ("Bearer " ++ t)%string ->
     provided_token r = Some (JStr t)) /\
  (forall a c, authorization r = Some (a ++ "Bearer " ++ c)%string ->
     occurs "Bearer " (a ++ "Bearer") = false -> (a ++ c)%string <> EmptyString ->
     provided_token r = Some (JStr (a ++ c))) /\
  (forall h, authorization r = Some h -> occurs "Bearer " h = false -> h <> EmptyString ->
     provided_token r = Some (JStr h)) /\
  (forall h, authorization r = Some h -> replace_first "Bearer " EmptyString h = EmptyString ->
     provided_token r = query_token r) /\
  (authorization r = None -> provided_token r = query_token r) /\
  (forall h, authorization r = Some h -> node_header h = h ->
     (replace_first "Bearer " EmptyString h = EmptyString <-> h = EmptyString)).
Proof.
  intros e r.
  split; [intros H; unfold requireAdmin; rewrite H; reflexivity|].
  split; [apply requireAdmin_configured|].
  split; [exact (provided_token_header r)|].
  split; [intros t Ht Ha; apply provided_token_bearer; assumption|].
  split.
  { intros a c Ha Ho Hne.
    assert (E : replace_first "Bearer " EmptyString (a ++ "Bearer " ++ c) = (a ++ c)%string)
      by exact (replace_first_first "Bearer" " " a c Ho).
    rewrite (provided_token_header r _ Ha); rewrite E; [reflexivity|exact Hne]. }
  split.
  { intros h Ha Ho Hne.
    rewrite (provided_token_header r _ Ha); rewrite (replace_first_absent _ _ _ Ho);
      [reflexivity|exact Hne]. }
  split.
  { intros h Ha Hh. unfold provided_token. rewrite Ha. cbn [option_map]. rewrite Hh.
    reflexivity. }
  split; [intros Ha; unfold provided_token; rewrite Ha; reflexivity|].
  intros h _ Hn. split.
  - apply bearer_removed_empty. rewrite <- Hn. apply node_header_not_bearer_sp.
  - intros ->. reflexivity.
Qed.

Lemma guard_exact_match_witness :
  requireAdmin (env_secret "s3cret") (mkAdminReq (Some "Bearer s3cret") None) = Next /\
  requireAdmin (env_secret "abc") (mkAdminReq (Some "aBearer bc") None) = Next /\
  provided_token (mkAdminReq (Some "aBearer bc") None) = Some (JStr "abc") /\
  requireAdmin (env_secret "s3cret") (mkAdminReq None (Some (JStr "wrong"))) = Deny 401 "Unauthorized" /\
  requireAdmin (env_secret EmptyString) (mkAdminReq None (Some (JStr EmptyString)))
    = Deny 500 "ADMIN_TOKEN missing" /\
  (replace_first "Bearer " EmptyString "Bearer s3cret" = EmptyString <->
   "Bearer s3cret" = EmptyString).
Proof.
  split; [|split; [|split; [|split; [|split]]]].
  - apply (proj1 (proj1 (proj2 (guard_exact_match (env_secret "s3cret")
                             (mkAdminReq (Some "Bearer s3cret") None))) ltac:(discriminate))).
    vm_compute. reflexivity.
  - apply (proj1 (proj1 (proj2 (guard_exact_match (env_secret "abc")
                             (mkAdminReq (Some "aBearer bc") None))) ltac:(discriminate))).
    vm_compute. reflexivity.
  - apply (proj1 (proj2 (proj2 (proj2 (proj2 (guard_exact_match (env_secret "abc")
                             (mkAdminReq (Some "aBearer bc") None)))))) "a" "bc");
      [reflexivity | vm_compute; reflexivity | discriminate].
  - apply (proj2 (proj1 (proj2 (guard_exact_match (env_secret "s3cret")
                                    (mkAdminReq None (Some (JStr "wrong"))))) ltac:(discriminate))).
    vm_compute. discriminate.
  - apply (proj1 (guard_exact_match (env_secret EmptyString)
                    (mkAdminReq None (Some (JStr EmptyString))))).
    reflexivity.
  - apply (proj2 (proj2 (proj2 (proj2 (proj2 (proj2 (proj2 (proj2
             (guard_exact_match (env_secret "s3cret")
                (mkAdminReq (Some "Bearer s3cret") None)))))))))
             "Bearer s3cret"); reflexivity.
Defined.




(** ** The transport options *)

Lemma strip_ws_no_ws : forall s, all_chars (fun c => negb (is_ws c)) (strip_ws s) = true.
Proof.
  induction s as [|c s IH]; simpl; [reflexivity|].
  destruct (is_ws c) eqn:Hc; simpl; [exact IH|rewrite Hc; exact IH].
Qed.

(** C8. Whenever [getMailer] builds a transport, its port is
    [Number(SMTP_PORT || 587)], [secure] holds exactly when that port is
    465, [requireTLS] exactly when it is 587, and the password is
    [SMTP_PASS] with every whitespace character removed, so it holds no
    whitespace. *)
Theorem getMailer_port_security : forall e t,
  getMailer e = Some t ->
  tr_port t = smtp_port e /\
  (tr_secure t = true <-> port_is (tr_port t) 465 = true) /\
  (tr_requireTLS t = true <-> port_is (tr_port t) 587 = true) /\
  (exists pw, SMTP_PASS e = Some pw /\ tr_pass t = strip_ws pw) /\
  all_chars (fun c => negb (is_ws c)) (tr_pass t) = true.
Proof.
  intros e t H. unfold getMailer in H.
  destruct (SMTP_HOST e) as [h|], (SMTP_USER e) as [u|], (SMTP_PASS e) as [pw|] eqn:Hpw;
    try discriminate.
  destruct (_ || _); [discriminate|].
  injection H as <-; simpl.
  split; [reflexivity|]. split; [reflexivity|]. split; [reflexivity|].
  split; [exists pw; split; reflexivity|]. apply strip_ws_no_ws.
Qed.

Lemma getMailer_port_security_witness :
  (exists t, getMailer (env_port "465.0") = Some t /\ tr_secure t = true /\
     tr_requireTLS t = false /\ tr_pass t = "abcdefgh") /\
  (exists t, getMailer (env_port "0x24B") = Some t /\ tr_secure t = false /\
     tr_requireTLS t = true).
Proof.
  split.
  - destruct (getMailer (env_port "465.0")) as [t|] eqn:Ht; [|vm_compute in Ht; discriminate].
    destruct (getMailer_port_security _ t Ht) as (Hp & Hs & Hr & Hpw & _).
    exists t. split; [reflexivity|]. split; [apply Hs; rewrite Hp; vm_compute; reflexivity|].
    split.
    + destruct (tr_requireTLS t) eqn:R; [|reflexivity].
      pose proof (proj1 Hr eq_refl) as X. rewrite Hp in X. vm_compute in X. discriminate.
    + destruct Hpw as (pw & Hpw & ->). vm_compute in Hpw. injection Hpw as <-. reflexivity.
  - destruct (getMailer (env_port "0x24B")) as [t|] eqn:Ht; [|vm_compute in Ht; discriminate].
    destruct (getMailer_port_security _ t Ht) as (Hp & Hs & Hr & _).
    exists t. split; [reflexivity|]. split.
    + destruct (tr_secure t) eqn:S; [|reflexivity].
      pose proof (proj1 Hs eq_refl) as X. rewrite Hp in X. vm_compute in X. discriminate.
    + apply Hr. rewrite Hp. vm_compute. reflexivity.
Defined.

(** ** Deleting by id *)

Lemma wf_empty : wf empty_store.
Proof. split; constructor. Qed.

Lemma wf_insertLead : forall st now p id st',
  wf st -> insertLead st now p = Some (id, st') -> wf st'.
Proof.
  intros st now p id st' [Hlt Hnd] H.
  apply insertLead_spec in H as (_ & -> & Hn & _ & Hr).
  split; rewrite Hr; [rewrite Hn|].
  - apply Forall_app; split.
    + eapply Forall_impl; [|exact Hlt]. simpl; intros; lia.
    + constructor; [simpl; lia|constructor].
  - rewrite map_app. apply NoDup_app; [exact Hnd|repeat constructor; simpl; tauto|].
    intros x Hx [Hy|[]]; simpl in Hy; subst.
    apply in_map_iff in Hx as (r & Hrid & Hr'). rewrite Forall_forall in Hlt.
    specialize (Hlt r Hr'). simpl in Hrid. lia.
Qed.

Lemma filter_keep_all : forall (f : lead -> bool) l,
  (forall x, In x l -> f x = true) -> filter f l = l.
Proof.
  intros f l; induction l as [|x l IH]; intro H; simpl; [reflexivity|].
  rewrite (H x (or_introl eq_refl)), IH; [reflexivity|].
  intros y Hy; apply H; right; exact Hy.
Qed.

Lemma filter_drop_all : forall (f : lead -> bool) l,
  (forall x, In x l -> f x = false) -> filter f l = [].
Proof.
  intros f l; induction l as [|x l IH]; intro H; simpl; [reflexivity|].
  rewrite (H x (or_introl eq_refl)). apply IH.
  intros y Hy; apply H; right; exact Hy.
Qed.

(** C7. Right after an insert into a well-formed table, deleting the new
    id reports one deleted row, and [listAll] loses exactly that row: one
    element shorter, the id gone, every other row kept. Deleting an id
    that no row has, on a working database, reports 0 and leaves the
    table, hence [listAll], as it was. *)
Theorem delete_inserted_or_absent :
  (forall st now p id st',
     wf st -> insertLead st now p = Some (id, st') ->
     exists L' st'' L'',
       listAll st' = Some L' /\ deleteById st' id = Some (1, st'') /\
       listAll st'' = Some L'' /\ length L'' = length L' - 1 /\
       In id (map lead_id L') /\ ~ In id (map lead_id L'') /\
       (forall r, In r L'' <-> In r L' /\ lead_id r <> id)) /\
  (forall st id,
     db_ok st = true -> ~ In id (map lead_id (rows st)) ->
     deleteById st id = Some (0, st)).
Proof.
  split.
  - intros st now p id st' [Hlt _] H.
    apply insertLead_spec in H as (_ & Hid & Hn & Hok & Hr).
    set (row := mkLead _ _ _ _ _ _ _ _) in Hr.
    assert (Hkeep : filter (fun r => negb (Nat.eqb (lead_id r) id)) (rows st') = rows st).
    { rewrite Hr, filter_app, filter_keep_all, filter_drop_all, app_nil_r; [reflexivity| |].
      - intros x [<-|[]]. simpl. rewrite Nat.eqb_refl. reflexivity.
      - intros x Hx. rewrite Forall_forall in Hlt. specialize (Hlt x Hx).
        apply negb_true_iff, Nat.eqb_neq. lia. }
    unfold listAll, deleteById. rewrite Hok, Hkeep. simpl.
    do 3 eexists. split; [reflexivity|]. split.
    { f_equal. f_equal. rewrite Hr, length_app. simpl. lia. }
    split; [reflexivity|]. cbn [rows].
    pose proof (sort_desc_perm (rows st')) as P'.
    pose proof (sort_desc_perm (rows st)) as P.
    assert (Hin : forall r, In r (sort_desc (rows st')) <-> In r (rows st) \/ r = row).
    { intro r. split.
      - intro H. apply (Permutation_in _ P') in H. rewrite Hr in H.
        apply in_app_or in H as [H|[H|[]]]; auto.
      - intro H. apply (Permutation_in _ (Permutation_sym P')). rewrite Hr.
        apply in_or_app. destruct H as [H| ->]; [left; exact H|right; left; reflexivity]. }
    assert (Hlow : forall r, In r (rows st) -> lead_id r <> id).
    { intros r Hr'. rewrite Forall_forall in Hlt. specialize (Hlt r Hr'). lia. }
    split.
    { rewrite (Permutation_length P), (Permutation_length P'), Hr, length_app. simpl. lia. }
    split.
    { apply in_map_iff. exists row. split; [reflexivity|]. apply Hin. right; reflexivity. }
    split.
    { intro H. apply in_map_iff in H as (r & Hrid & H).
      apply (Permutation_in _ P) in H. exact (Hlow r H Hrid). }
    intro r. rewrite Hin. split.
    + intro H. apply (Permutation_in _ P) in H. split; [left; exact H|exact (Hlow r H)].
    + intros [[H| ->] Hne].
      * apply (Permutation_in _ (Permutation_sym P)). exact H.
      * contradiction Hne. reflexivity.
  - intros [rs n ok] id Hok Hnot. simpl in *. subst ok.
    unfold deleteById; simpl.
    rewrite filter_keep_all; [rewrite Nat.sub_diag; reflexivity|].
    intros x Hx. apply negb_true_iff, Nat.eqb_neq. intro E; subst.
    apply Hnot, in_map; exact Hx.
Qed.

Lemma delete_inserted_or_absent_witness :
  wf empty_store /\ insertLead empty_store 5 payload_ann = Some (1, store_ann) /\
  exists L' st'' L'',
    listAll store_ann = Some L' /\ deleteById store_ann 1 = Some (1, st'') /\
    listAll st'' = Some L'' /\ length L'' = length L' - 1.
Proof.
  split; [exact wf_empty|]. split; [reflexivity|].
  destruct (proj1 delete_inserted_or_absent empty_store 5 payload_ann 1 store_ann
              wf_empty eq_refl)
    as (L' & st'' & L'' & H1 & H2 & H3 & H4 & _).
  exists L', st'', L''. repeat split; assumption.
Defined.

(** ** The notification mails *)




(** ** HTML escaping *)

Lemma replaceAll_app : forall c rep a b,
  replaceAll c rep (a ++ b) = (replaceAll c rep a ++ replaceAll c rep b)%string.
Proof.
  intros c rep a b; induction a as [|x a IH]; simpl; [reflexivity|].
  destruct (Ascii.eqb x c); rewrite IH; [apply str_app_assoc|reflexivity].
Qed.

Lemma esc_chain_char : forall c, esc_chain (String c EmptyString) = esc_char c.
Proof. intros [[] [] [] [] [] [] [] []]; reflexivity. Qed.

Lemma esc_chain_app : forall a b, esc_chain (a ++ b) = (esc_chain a ++ esc_chain b)%string.
Proof. intros a b. unfold esc_chain. rewrite !replaceAll_app. reflexivity. Qed.

Lemma esc_chain_esc_str : forall s, esc_chain s = esc_str s.
Proof.
  induction s as [|c s IH]; [reflexivity|].
  change (String c s) with (String c EmptyString ++ s)%string.
  rewrite esc_chain_app, esc_chain_char, IH. reflexivity.
Qed.

Lemma escapeHtml_esc_str : forall v,
  escapeHtml v = esc_str (js_String (js_or v (JStr EmptyString))).
Proof. intro v. apply esc_chain_esc_str. Qed.

Lemma markup_app : forall a b, markup (a ++ b) = (markup a ++ markup b)%string.
Proof.
  induction a as [|c a IH]; intro b; simpl; [reflexivity|].
  destruct (is_markup c); rewrite IH; reflexivity.
Qed.

Lemma markup_if : forall (b : bool) x y,
  markup (if b then x else y) = if b then markup x else markup y.
Proof. intros []; reflexivity. Qed.

Lemma markup_esc_char : forall c, markup (esc_char c) = EmptyString.
Proof. intros [[] [] [] [] [] [] [] []]; reflexivity. Qed.

Lemma markup_esc_str : forall s, markup (esc_str s) = EmptyString.
Proof.
  induction s as [|c s IH]; simpl; [reflexivity|].
  rewrite markup_app, markup_esc_char, IH. reflexivity.
Qed.

Lemma markup_escapeHtml : forall v, markup (escapeHtml v) = EmptyString.
Proof. intro v. rewrite escapeHtml_esc_str. apply markup_esc_str. Qed.

Lemma unescape_esc_char : forall c t, unescape (esc_char c ++ t) = String c (unescape t).
Proof. intros [[] [] [] [] [] [] [] []] t; reflexivity. Qed.

Lemma unescape_esc_str : forall s, unescape (esc_str s) = s.
Proof.
  induction s as [|c s IH]; simpl; [reflexivity|].
  rewrite unescape_esc_char, IH. reflexivity.
Qed.

Lemma count_nl_esc_char : forall c t,
  count_char nl (esc_char c ++ t) = (if Ascii.eqb c nl then 1 else 0) + count_char nl t.
Proof. intros [[] [] [] [] [] [] [] []] t; reflexivity. Qed.

Lemma count_nl_esc_str : forall s, count_char nl (esc_str s) = count_char nl s.
Proof.
  induction s as [|c s IH]; simpl; [reflexivity|].
  rewrite count_nl_esc_char, IH. reflexivity.
Qed.

Lemma markup_br : forall s, markup s = EmptyString ->
  markup (replaceAll nl "<br/>" s) = str_repeat "<>" (count_char nl s).
Proof.
  induction s as [|c s IH]; intro H; simpl; [reflexivity|].
  simpl in H. destruct (is_markup c) eqn:Hc; [discriminate|].
  destruct (Ascii.eqb c nl) eqn:En; simpl.
  - rewrite IH; auto.
  - rewrite Hc. apply IH, H.
Qed.

Lemma markup_digit_string : forall u, markup (NilEmpty.string_of_uint u) = EmptyString.
Proof. induction u; simpl; auto. Qed.

Lemma markup_nat_str : forall n, markup (nat_str n) = EmptyString.
Proof. intro n. apply markup_digit_string. Qed.

(** C6. [escapeHtml] maps every character of [String(s || EMPTY)] to
    itself, except the five reserved ones, each replaced once by its
    entity (so no entity it produced is escaped again); its output holds
    none of [<], [>], the double or the single quote, and decodes back to
    the input. In the customer confirmation html, the sequence of these
    markup characters depends only on which of name, phone and message are
    truthy and on the number of line breaks of the message: the submitted
    text adds no markup. A message holding a script tag leaves no
    [<script] in the html. *)
Theorem escapeHtml_no_markup :
  (forall v, escapeHtml v = esc_str (js_String (js_or v (JStr EmptyString)))) /\
  (forall s, markup (esc_str s) = EmptyString) /\
  (forall s, unescape (esc_str s) = s) /\
  (forall brand brand' id id' name name' phone phone' service service' message message',
     truthy_opt name = truthy_opt name' -> truthy_opt phone = truthy_opt phone' ->
     truthy_opt message = truthy_opt message' ->
     count_char nl (js_String (js_or message (JStr EmptyString)))
       = count_char nl (js_String (js_or message' (JStr EmptyString))) ->
     markup (confirmation_html brand id name phone service message)
     = markup (confirmation_html brand' id' name' phone' service' message')) /\
  occurs "<script" (confirmation_html "KC Detailing Studio" 1 (Some (JStr "Ann")) None
                      (Some (JStr "wash")) script_message) = false.
Proof.
  split; [exact escapeHtml_esc_str|].
  split; [exact markup_esc_str|].
  split; [exact unescape_esc_str|].
  split; [|vm_compute; reflexivity].
  intros brand brand' id id' name name' phone phone' service service' message message'
         Hn Hp Hm Hc.
  unfold confirmation_html.
  repeat (rewrite markup_app || rewrite markup_if).
  rewrite !markup_escapeHtml, !markup_nat_str.
  rewrite !markup_br by apply markup_escapeHtml.
  rewrite !escapeHtml_esc_str, !count_nl_esc_str.
  rewrite Hn, Hp, Hm, Hc. reflexivity.
Qed.

Lemma escapeHtml_no_markup_witness :
  markup (confirmation_html "KC Detailing Studio" 1 (Some (JStr "Ann")) None (Some (JStr "wash"))
            script_message)
  = markup (confirmation_html "KC Detailing Studio" 1 (Some (JStr "Ann")) None (Some (JStr "wash"))
              (Some (JStr "hello"))).
Proof.
  apply (proj1 (proj2 (proj2 (proj2 escapeHtml_no_markup))));
    reflexivity.
Defined.

(** ** CORS *)

Example cors_origins_example :
  cors_origins (Some " https://kcdetailingstudio.nl , https://*.wixsite.com,,")
  = ["https://kcdetailingstudio.nl"; "https://*.wixsite.com"].
Proof. reflexivity. Qed.

Example cors_wix :
  cors_origin ["https://*.wixsite.com"] (Some "https://shop.wixsite.com") = CorsAllow /\
  cors_origin ["https://*.wixsite.com"] (Some "https://wixsite.com.evil.nl") = CorsBlock.
Proof. split; reflexivity. Qed.

Lemma ltrim_idem : forall s, ltrim (ltrim s) = ltrim s.
Proof.
  induction s as [|a s IH]; [reflexivity|]. cbn [ltrim].
  destruct (is_ws a) eqn:E; [exact IH|]. cbn [ltrim]. rewrite E. reflexivity.
Qed.

Lemma rtrim_idem : forall s, rtrim (rtrim s) = rtrim s.
Proof.
  induction s as [|a s IH]; [reflexivity|]. cbn [rtrim].
  destruct ((rtrim s =? EmptyString)%string && is_ws a) eqn:E; [reflexivity|].
  cbn [rtrim]. rewrite IH, E. reflexivity.
Qed.

Lemma rtrim_head : forall c s, is_ws c = false -> rtrim (String c s) = String c (rtrim s).
Proof. intros c s H. cbn [rtrim]. rewrite H, andb_false_r. reflexivity. Qed.

Lemma ltrim_rtrim_ltrim : forall s, ltrim (rtrim (ltrim s)) = rtrim (ltrim s).
Proof.
  induction s as [|a s IH]; [reflexivity|]. cbn [ltrim].
  destruct (is_ws a) eqn:E; [exact IH|].
  rewrite rtrim_head by exact E. cbn [ltrim]. rewrite E. reflexivity.
Qed.

Lemma trim_idem : forall s, trim (trim s) = trim s.
Proof. intros s. unfold trim. rewrite ltrim_rtrim_ltrim. apply rtrim_idem. Qed.

Lemma glob_lit_prefix : forall p r s, all_chars no_star p = true ->
  glob (p ++ r) s = true <-> exists s', s = (p ++ s')%string /\ glob r s' = true.
Proof.
  induction p as [|c p IH]; intros r s Hp.
  - simpl. split; [intros H; exists s; split; [reflexivity|exact H]|].
    intros [s' [-> H]]. exact H.
  - cbn [all_chars] in Hp. apply andb_prop in Hp as [Hc Hp].
    unfold no_star in Hc. apply negb_true_iff in Hc.
    cbn [append glob]. rewrite Hc. destruct s as [|x s].
    + split; [discriminate|]. intros [s' [H _]]. discriminate H.
    + rewrite andb_true_iff, IH by exact Hp. split.
      * intros [Hx [s' [-> H]]]. apply Ascii.eqb_eq in Hx. subst x.
        exists s'. split; [reflexivity|exact H].
      * intros [s' [H H']]. injection H as -> ->.
        split; [apply Ascii.eqb_refl|]. exists s'. split; [reflexivity|exact H'].
Qed.

Lemma glob_star_nil : forall q, glob (String "*" q) EmptyString = (glob q EmptyString || false).
Proof. reflexivity. Qed.

Lemma glob_star_cons : forall q x s,
  glob (String "*" q) (String x s) = (glob q (String x s) || (no_lt x && glob (String "*" q) s)).
Proof. reflexivity. Qed.

Lemma glob_star : forall q s, glob (String "*" q) s = true <->
  exists x y, s = (x ++ y)%string /\ all_chars no_lt x = true /\ glob q y = true.
Proof.
  intros q s. induction s as [|a s IH].
  - rewrite glob_star_nil, orb_false_r. split.
    + intros H. exists EmptyString, EmptyString. auto.
    + intros [x [y [H [_ H']]]]. symmetry in H. apply str_app_eq_nil in H as [-> ->]. exact H'.
  - rewrite glob_star_cons, orb_true_iff, andb_true_iff, IH. split.
    + intros [H | [Ha [x [y [-> [Hx Hy]]]]]].
      * exists EmptyString, (String a s). auto.
      * exists (String a x), y. split; [reflexivity|]. cbn [all_chars]. rewrite Ha, Hx. auto.
    + intros [[|c x] [y [H [Hx Hy]]]].
      * left. simpl in H. subst y. exact Hy.
      * right. injection H as -> ->. cbn [all_chars] in Hx. apply andb_prop in Hx as [Hc Hx].
        split; [exact Hc|]. exists x, y. auto.
Qed.

Lemma glob_lit : forall p s, all_chars no_star p = true -> glob p s = true <-> s = p.
Proof.
  intros p s Hp. rewrite <- (str_app_nil_r p) at 1. rewrite glob_lit_prefix by exact Hp.
  split.
  - intros [s' [-> H]]. simpl in H. apply String.eqb_eq in H. subst s'. apply str_app_nil_r.
  - intros ->. exists EmptyString. split; [symmetry; apply str_app_nil_r|reflexivity].
Qed.

Lemma glob_one_star : forall P S o, all_chars no_star P = true -> all_chars no_star S = true ->
  glob (P ++ String "*" S) o = true <->
  exists x, o = (P ++ x ++ S)%string /\ all_chars no_lt x = true.
Proof.
  intros P S o HP HS. rewrite glob_lit_prefix by exact HP. split.
  - intros [s' [-> H]]. apply glob_star in H as [x [y [-> [Hx Hy]]]].
    apply glob_lit in Hy; [|exact HS]. subst y. exists x. auto.
  - intros [x [-> Hx]]. exists (x ++ S)%string. split; [reflexivity|].
    apply glob_star. exists x, S. split; [reflexivity|]. split; [exact Hx|].
    apply glob_lit; [exact HS|reflexivity].
Qed.

Lemma occurs_app_r : forall pat a b, occurs pat b = true -> occurs pat (a ++ b) = true.
Proof.
  intros pat a b H. induction a as [|c a IH]; [exact H|].
  cbn [append occurs]. rewrite IH, orb_true_r. reflexivity.
Qed.

Lemma all_chars_app : forall p a b,
  all_chars p (a ++ b) = all_chars p a && all_chars p b.
Proof.
  intros p a b. induction a as [|c a IH]; [reflexivity|].
  cbn [append all_chars]. rewrite IH, andb_assoc. reflexivity.
Qed.

Lemma existsb_singleton : forall (f : string -> bool) x, existsb f [x] = f x.
Proof. intros f x. simpl. apply orb_false_r. Qed.

(** X1. The origin callback lets a request through when it carries no
    Origin header or an empty one, when the allow list holds [*], or when
    the allow list holds the origin itself. *)
Theorem cors_origin_allows : forall rules origin,
  origin = None \/ origin = Some EmptyString \/ In "*" rules \/
  (exists o, origin = Some o /\ In o rules) ->
  cors_origin rules origin = CorsAllow.
Proof.
  intros rules origin H. unfold cors_origin. destruct origin as [o|]; [|reflexivity].
  destruct (o =? EmptyString)%string eqn:E; [reflexivity|].
  destruct H as [H|[H|[H|[o' [H1 H2]]]]].
  - discriminate H.
  - injection H as ->. discriminate E.
  - replace (existsb (fun r => (r =? "*")%string) rules) with true; [reflexivity|].
    symmetry. apply existsb_exists. exists "*". split; [exact H|apply String.eqb_refl].
  - injection H1 as ->.
    destruct (existsb (fun r => (r =? "*")%string) rules); [reflexivity|].
    replace (existsb (fun r => (r =? o')%string) rules) with true; [reflexivity|].
    symmetry. apply existsb_exists. exists o'. split; [exact H2|apply String.eqb_refl].
Qed.

Lemma cors_origin_allows_witness :
  cors_origin ["https://kcdetailingstudio.nl"] (Some "https://kcdetailingstudio.nl") = CorsAllow.
Proof.
  apply cors_origin_allows. right; right; right.
  exists "https://kcdetailingstudio.nl". split; [reflexivity|left; reflexivity].
Defined.

(** X2. A single wildcard rule [P*S], free of other regular-expression
    syntax, lets a non-empty origin through exactly when the origin is [P],
    then any run of characters other than line terminators, then [S]; the
    callback never gets past it with another answer than allow or block. *)
Theorem cors_wildcard_rule : forall P S o,
  all_chars no_star P = true -> all_chars no_star S = true ->
  existsb regex_syntax (list_ascii_of_string (P ++ String "*" S)) = false ->
  (P ++ String "*" S)%string <> "*" -> o <> EmptyString ->
  (cors_origin [P ++ String "*" S] (Some o) = CorsAllow <->
   exists x, o = (P ++ x ++ S)%string /\ all_chars no_lt x = true) /\
  cors_origin [P ++ String "*" S] (Some o) <> CorsUnmodelled.
Proof.
  intros P S o HP HS Hsyn Hstar Ho. unfold cors_origin.
  apply String.eqb_neq in Ho. rewrite Ho.
  rewrite !existsb_singleton. apply String.eqb_neq in Hstar. rewrite Hstar.
  assert (Hhas : has_star (P ++ String "*" S) = true).
  { unfold has_star. apply occurs_app_r. cbn [occurs].
    change (String "*" S) with ("*" ++ S)%string. rewrite prefix_app. reflexivity. }
  destruct ((P ++ String "*" S) =? o)%string eqn:Eo.
  - apply String.eqb_eq in Eo. split; [|discriminate]. split; [intros _|reflexivity].
    exists "*". split; [symmetry; exact Eo|reflexivity].
  - simpl. rewrite Hhas, Hsyn. simpl.
    destruct (glob (P ++ String "*" S) o) eqn:G.
    + split; [|discriminate]. split; [intros _|reflexivity].
      apply glob_one_star; assumption.
    + split; [|discriminate]. split; [discriminate|].
      intros Hx. apply (glob_one_star P S o HP HS) in Hx. rewrite G in Hx. discriminate.
Qed.

Lemma cors_wildcard_rule_witness :
  cors_origin ["https://*.wixsite.com"] (Some "https://shop.wixsite.com") = CorsAllow.
Proof.
  apply (proj2 (proj1 (cors_wildcard_rule "https://" ".wixsite.com" "https://shop.wixsite.com"
           eq_refl eq_refl eq_refl ltac:(discriminate) ltac:(discriminate)))).
  exists "shop". split; reflexivity.
Defined.

(** X3. Every entry of the parsed [CORS_ORIGINS] list is non-empty and
    already trimmed. *)
Theorem cors_origins_trimmed : forall v,
  Forall (fun x => x <> EmptyString /\ trim x = x) (cors_origins v).
Proof.
  intros v. apply Forall_forall. intros x Hx. unfold cors_origins in Hx.
  apply filter_In in Hx as [Hx Hne]. apply in_map_iff in Hx as [y [<- _]].
  split; [apply negb_true_iff, String.eqb_neq in Hne; exact Hne|apply trim_idem].
Qed.

(** X4. With [CORS_ORIGINS] unset or empty the list is [*] and the origin
    callback lets every origin through. *)
Theorem cors_default_allows_all : forall v origin,
  env_truthy v = false ->
  cors_origins v = ["*"] /\ cors_origin (cors_origins v) origin = CorsAllow.
Proof.
  intros v origin Hv.
  assert (Hl : cors_origins v = ["*"]).
  { unfold cors_origins. destruct v as [s|]; [|reflexivity].
    simpl in Hv. apply negb_false_iff in Hv. unfold env_or. rewrite Hv. reflexivity. }
  split; [exact Hl|]. rewrite Hl. apply cors_origin_allows.
  right; right; left. left. reflexivity.
Qed.

Lemma cors_default_allows_all_witness :
  cors_origins (Some EmptyString) = ["*"] /\
  cors_origin (cors_origins (Some EmptyString)) (Some "https://evil.example") = CorsAllow.
Proof. apply cors_default_allows_all. reflexivity. Defined.

(** ** Admin routes and the table invariant *)

Lemma HdRel_ins_desc : forall a r l,
  createdAt r <= createdAt a -> HdRel newer_first a l -> HdRel newer_first a (ins_desc r l).
Proof.
  intros a r [|x l] Hr Hl; simpl; [constructor; exact Hr|].
  destruct (Nat.ltb (createdAt x) (createdAt r)); constructor; [exact Hr|].
  inversion Hl; assumption.
Qed.

Lemma ins_desc_sorted : forall r l, Sorted newer_first l -> Sorted newer_first (ins_desc r l).
Proof.
  intros r l; induction l as [|x l IH]; intros H; simpl; [repeat constructor|].
  destruct (Nat.ltb (createdAt x) (createdAt r)) eqn:E.
  - apply Nat.ltb_lt in E. constructor; [exact H|constructor; unfold newer_first; lia].
  - apply Nat.ltb_ge in E. inversion H; subst. constructor; [apply IH; assumption|].
    apply HdRel_ins_desc; assumption.
Qed.

Lemma sort_desc_sorted : forall l, Sorted newer_first (sort_desc l).
Proof.
  intros l. unfold sort_desc. induction (rev l) as [|x m IH]; simpl; [constructor|].
  apply ins_desc_sorted, IH.
Qed.

Lemma filter_map_NoDup : forall (f : lead -> bool) l,
  NoDup (map lead_id l) -> NoDup (map lead_id (filter f l)).
Proof.
  intros f l; induction l as [|x l IH]; intros H; simpl; [constructor|].
  inversion H as [|? ? Hx Hnd]; subst.
  destruct (f x); simpl; [|apply IH; exact Hnd].
  constructor; [|apply IH; exact Hnd].
  intros Hin. apply Hx. apply in_map_iff in Hin as [y [Hy Hin]].
  apply filter_In in Hin as [Hin _]. rewrite <- Hy. apply in_map. exact Hin.
Qed.

Lemma wf_deleteById : forall st id n st', wf st -> deleteById st id = Some (n, st') -> wf st'.
Proof.
  intros st id n st' [Hlt Hnd] H. unfold deleteById in H.
  destruct (db_ok st); [|discriminate]. injection H as _ <-. split; simpl.
  - apply Forall_forall. intros x Hx. apply filter_In in Hx as [Hx _].
    rewrite Forall_forall in Hlt. apply Hlt, Hx.
  - apply filter_map_NoDup, Hnd.
Qed.

Lemma delete_count_nodup : forall id l,
  NoDup (map lead_id l) ->
  let keep := filter (fun r => negb (Nat.eqb (lead_id r) id)) l in
  (In id (map lead_id l) /\ length l = S (length keep)) \/
  (~ In id (map lead_id l) /\ length l = length keep).
Proof.
  intros id l; induction l as [|x l IH]; intros H; simpl; [right; split; auto|].
  inversion H as [|? ? Hx Hnd]; subst. specialize (IH Hnd).
  destruct (Nat.eqb (lead_id x) id) eqn:E; simpl.
  - apply Nat.eqb_eq in E. subst id. left. split; [left; reflexivity|].
    destruct IH as [[Hin _]|[_ Hl]]; [contradiction|]. rewrite Hl. reflexivity.
  - apply Nat.eqb_neq in E. destruct IH as [[Hin Hl]|[Hin Hl]].
    + left. split; [right; exact Hin|]. simpl. rewrite Hl. reflexivity.
    + right. split; [intros [Hi|Hi]; [exact (E Hi)|exact (Hin Hi)]|]. simpl. rewrite Hl.
      reflexivity.
Qed.

Lemma requireAdmin_unset : forall e r,
  admin_token e = EmptyString -> requireAdmin e r = Deny 500 "ADMIN_TOKEN missing".
Proof. intros e r H. unfold requireAdmin. rewrite H. reflexivity. Qed.

Lemma handleEmailLead_after_insert : forall e net b w id st,
  fields_present b = true -> isValidEmail (b_email b) = true ->
  insertLead (db w) (clock w) (email_payload b) = Some (id, st) ->
  db (snd (handleEmailLead e net b w)) = st.
Proof.
  intros e net b w id st Hf Hv Hins. unfold email_payload in Hins.
  unfold handleEmailLead. rewrite Hf, Hv. simpl. rewrite Hins.
  destruct (MAIL_TO e) as [mt|]; [|reflexivity].
  repeat first
    [ reflexivity
    | match goal with
      | |- context [if ?c then _ else _] => destruct c
      | |- context [match getMailer e with _ => _ end] => destruct (getMailer e)
      end ].
Qed.

Lemma handleEmailLead_no_insert : forall e net b w,
  insertLead (db w) (clock w) (email_payload b) = None ->
  handleEmailLead e net b w = (RError 400 "Missing fields", w) \/
  handleEmailLead e net b w = (RError 400 "Invalid email", w) \/
  handleEmailLead e net b w = (RError 500 "Email send failed", w).
Proof.
  intros e net b w Hins. unfold email_payload in Hins. unfold handleEmailLead.
  destruct (negb (fields_present b)); [left; reflexivity|].
  destruct (negb (isValidEmail (b_email b))); [right; left; reflexivity|].
  rewrite Hins. right; right; reflexivity.
Qed.

Lemma post_leads_db : forall b w,
  db (snd (post_leads b w)) = db w \/
  exists id, insertLead (db w) (clock w)
    (mkPayload (b_name b) (b_email b) (b_phone b) (b_service b) (b_message b) (b_source b))
    = Some (id, db (snd (post_leads b w))).
Proof.
  intros b w. unfold post_leads.
  destruct (negb (fields_present b)); [left; reflexivity|].
  destruct (negb (isValidEmail (b_email b))); [left; reflexivity|].
  destruct (insertLead _ _ _) as [[id st]|] eqn:E; [right; exists id; reflexivity|left; reflexivity].
Qed.

Lemma handleEmailLead_db : forall e net b w,
  db (snd (handleEmailLead e net b w)) = db w \/
  exists id, insertLead (db w) (clock w) (email_payload b)
    = Some (id, db (snd (handleEmailLead e net b w))).
Proof.
  intros e net b w.
  destruct (insertLead (db w) (clock w) (email_payload b)) as [[id st]|] eqn:E.
  - destruct (fields_present b) eqn:Hf.
    + destruct (isValidEmail (b_email b)) eqn:Hv.
      * right. exists id. rewrite (handleEmailLead_after_insert e net b w id st Hf Hv E). reflexivity.
      * left. unfold handleEmailLead. rewrite Hf, Hv. reflexivity.
    + left. unfold handleEmailLead. rewrite Hf. reflexivity.
  - left. destruct (handleEmailLead_no_insert e net b w E) as [H|[H|H]]; rewrite H; reflexivity.
Qed.

Lemma wf_delete_admin_lead : forall e r id w, wf (db w) -> wf (db (snd (delete_admin_lead e r id w))).
Proof.
  intros e r id w H. unfold delete_admin_lead.
  destruct (requireAdmin e r); [|exact H].
  destruct (deleteById (db w) id) as [[n st]|] eqn:E; [|exact H].
  exact (wf_deleteById _ _ _ _ H E).
Qed.

(** X5. With neither [ADMIN_TOKEN] nor [ADMIN_API_KEY] set, both admin
    routes answer every request with 500 "ADMIN_TOKEN missing", and the
    delete route leaves the world as it was. *)
Theorem admin_routes_unconfigured : forall e r id w,
  admin_token e = EmptyString ->
  get_admin_leads e r w = RError 500 "ADMIN_TOKEN missing" /\
  delete_admin_lead e r id w = (RError 500 "ADMIN_TOKEN missing", w).
Proof.
  intros e r id w H. unfold get_admin_leads, delete_admin_lead.
  rewrite requireAdmin_unset by exact H. split; reflexivity.
Qed.

Lemma admin_routes_unconfigured_witness :
  get_admin_leads (env_secret EmptyString) (mkAdminReq (Some "Bearer x") None) world0
    = RError 500 "ADMIN_TOKEN missing" /\
  delete_admin_lead (env_secret EmptyString) (mkAdminReq (Some "Bearer x") None) 1 world0
    = (RError 500 "ADMIN_TOKEN missing", world0).
Proof. apply admin_routes_unconfigured. reflexivity. Defined.

(** X6. The listing route returns rows only past the guard, and then it
    returns every row of the table exactly once, newest first. *)
Theorem admin_list_newest_first : forall e r w l,
  get_admin_leads e r w = ROkRows l ->
  requireAdmin e r = Next /\ Permutation l (rows (db w)) /\ Sorted newer_first l.
Proof.
  intros e r w l H. unfold get_admin_leads in H.
  destruct (requireAdmin e r); [|discriminate]. split; [reflexivity|].
  unfold listAll in H. destruct (db_ok (db w)); [|discriminate].
  injection H as <-. split; [apply sort_desc_perm|apply sort_desc_sorted].
Qed.

Lemma admin_list_newest_first_witness :
  requireAdmin env_full (mkAdminReq (Some "Bearer s3cret") None) = Next /\
  Permutation (sort_desc (rows store_ann)) (rows (db (set_db world0 store_ann))) /\
  Sorted newer_first (sort_desc (rows store_ann)).
Proof.
  apply (admin_list_newest_first env_full (mkAdminReq (Some "Bearer s3cret") None)
           (set_db world0 store_ann)).
  reflexivity.
Defined.

(** X7. A delete request that gets an error (guard refusal or a database
    that refuses the statement) leaves the world as it was. *)
Theorem delete_error_unchanged : forall e r id w s m w',
  delete_admin_lead e r id w = (RError s m, w') -> w' = w.
Proof.
  intros e r id w s m w' H. unfold delete_admin_lead in H.
  destruct (requireAdmin e r); [|injection H as _ _ <-; reflexivity].
  destruct (deleteById (db w) id) as [[n st]|]; [discriminate|].
  injection H as _ _ <-. reflexivity.
Qed.

Lemma delete_error_unchanged_witness :
  mkWorld (mkStore [] 1 false) 0 [] = mkWorld (mkStore [] 1 false) 0 [].
Proof.
  apply (delete_error_unchanged env_full (mkAdminReq (Some "Bearer s3cret") None) 1
           (mkWorld (mkStore [] 1 false) 0 []) 500 "DB delete failed").
  reflexivity.
Defined.

(** X8. Repeating a delete that succeeded answers [deleted: 0] and leaves
    the world as the first delete left it. *)
Theorem delete_twice : forall e r id w n w',
  delete_admin_lead e r id w = (ROkDeleted n, w') ->
  delete_admin_lead e r id w' = (ROkDeleted 0, w').
Proof.
  intros e r id w n w' H. unfold delete_admin_lead in *.
  destruct (requireAdmin e r); [|discriminate].
  unfold deleteById in *. destruct (db_ok (db w)); [|discriminate].
  injection H as _ <-. simpl.
  set (f := fun r0 : lead => negb (Nat.eqb (lead_id r0) id)).
  rewrite (filter_keep_all f (filter f (rows (db w)))); [rewrite Nat.sub_diag; reflexivity|].
  intros x Hx. apply filter_In in Hx as [_ Hx]. exact Hx.
Qed.

Lemma delete_twice_witness :
  delete_admin_lead env_full (mkAdminReq (Some "Bearer s3cret") None) 1
    (set_db world0 (mkStore [] 2 true)) = (ROkDeleted 0, set_db world0 (mkStore [] 2 true)).
Proof. apply (delete_twice _ _ _ (set_db world0 store_ann) 1). reflexivity. Defined.

(** X9. On a table with distinct ids the delete route reports 1 when a
    row had the id and 0 otherwise, and the table afterwards holds every
    other row. *)
Theorem delete_count_zero_or_one : forall e r id w n w',
  wf (db w) -> delete_admin_lead e r id w = (ROkDeleted n, w') ->
  (n = 1 <-> In id (map lead_id (rows (db w)))) /\ n <= 1 /\
  (forall x, In x (rows (db w')) <-> In x (rows (db w)) /\ lead_id x <> id).
Proof.
  intros e r id w n w' [_ Hnd] H. unfold delete_admin_lead in H.
  destruct (requireAdmin e r); [|discriminate].
  unfold deleteById in H. destruct (db_ok (db w)); [|discriminate].
  injection H as <- <-. simpl.
  split; [|split].
  - destruct (delete_count_nodup id _ Hnd) as [[Hin Hl]|[Hin Hl]]; rewrite Hl.
    + split; [intros _; exact Hin|intros _; lia].
    + split; [lia|intros Hi; contradiction].
  - destruct (delete_count_nodup id _ Hnd) as [[_ Hl]|[_ Hl]]; rewrite Hl; lia.
  - intros x. rewrite filter_In, negb_true_iff, Nat.eqb_neq. reflexivity.
Qed.

Lemma delete_count_zero_or_one_witness :
  (1 = 1 <-> In 1 (map lead_id (rows store_ann))) /\ 1 <= 1 /\
  (forall x, In x (rows (db (set_db world0 (mkStore [] 2 true)))) <->
             In x (rows store_ann) /\ lead_id x <> 1).
Proof.
  apply (delete_count_zero_or_one env_full (mkAdminReq (Some "Bearer s3cret") None) 1
           (set_db world0 store_ann)).
  - split; simpl; [repeat constructor; simpl; lia|repeat constructor; simpl; tauto].
  - reflexivity.
Defined.

(** X10. The table invariant (distinct ids, all below the next
    AUTOINCREMENT key) holds after every request to the intake and admin
    routes that write to the table. *)
Theorem wf_preserved : forall e net b r id w,
  wf (db w) ->
  wf (db (snd (post_leads b w))) /\ wf (db (snd (handleEmailLead e net b w))) /\
  wf (db (snd (delete_admin_lead e r id w))).
Proof.
  intros e net b r id w H. split; [|split].
  - destruct (post_leads_db b w) as [E|[i E]]; [rewrite E; exact H|].
    exact (wf_insertLead _ _ _ _ _ H E).
  - destruct (handleEmailLead_db e net b w) as [E|[i E]]; [rewrite E; exact H|].
    exact (wf_insertLead _ _ _ _ _ H E).
  - apply wf_delete_admin_lead, H.
Qed.

Lemma wf_preserved_witness :
  wf (db (snd (post_leads body_ann world0))) /\
  wf (db (snd (handleEmailLead env_full accept_all body_ann world0))) /\
  wf (db (snd (delete_admin_lead env_full (mkAdminReq None (Some (JStr "s3cret"))) 1 world0))).
Proof. apply wf_preserved. exact wf_empty. Defined.

(** ** Intake handlers *)

Lemma post_leads_ok : forall b w id w',
  post_leads b w = (ROkId id, w') ->
  w' = set_db w (db w') /\
  insertLead (db w) (clock w)
    (mkPayload (b_name b) (b_email b) (b_phone b) (b_service b) (b_message b) (b_source b))
    = Some (id, db w').
Proof.
  intros b w id w' H. unfold post_leads in H.
  destruct (negb (fields_present b)); [discriminate|].
  destruct (negb (isValidEmail (b_email b))); [discriminate|].
  destruct (insertLead _ _ _) as [[i st]|]; [|discriminate].
  injection H as <- <-. split; reflexivity.
Qed.

(** X11. Every error of [POST /api/leads] leaves the world as it was; it
    is a 400 from validation, or the 500 "Insert failed", which happens
    only when the database refuses the statement. *)
Theorem post_leads_errors : forall b w s m w',
  post_leads b w = (RError s m, w') ->
  w' = w /\
  ((s = 400 /\ (m = "Missing fields" \/ m = "Invalid email")) \/
   (s = 500 /\ m = "Insert failed" /\ db_ok (db w) = false)).
Proof.
  intros b w s m w' H. unfold post_leads in H.
  destruct (fields_present b) eqn:Hf; simpl in H;
    [|injection H as <- <- <-; split; [reflexivity|left; auto]].
  destruct (isValidEmail (b_email b)) eqn:Hv; simpl in H;
    [|injection H as <- <- <-; split; [reflexivity|left; auto]].
  destruct (insertLead _ _ _) as [[i st]|] eqn:E; [discriminate|].
  injection H as <- <- <-. split; [reflexivity|right; split; [reflexivity|split; [reflexivity|]]].
  destruct (db_ok (db w)) eqn:Hok; [|reflexivity].
  fields_split Hf.
  destruct (insertLead_some (db w) (clock w)
              (mkPayload (b_name b) (b_email b) (b_phone b) (b_service b) (b_message b)
                 (b_source b)) Hok) as [st' Hst]; simpl; auto.
  rewrite Hst in E. discriminate.
Qed.

Lemma post_leads_errors_witness :
  set_db world0 (mkStore [] 1 false) = set_db world0 (mkStore [] 1 false) /\
  ((500 = 400 /\ ("Insert failed" = "Missing fields" \/ "Insert failed" = "Invalid email")) \/
   (500 = 500 /\ "Insert failed" = "Insert failed" /\
    db_ok (db (set_db world0 (mkStore [] 1 false))) = false)).
Proof. apply (post_leads_errors body_ann). reflexivity. Defined.

(** X12. The id a successful [POST /api/leads] answers is new to the
    table, and a later successful submission answers a larger id. *)
Theorem post_leads_fresh_increasing : forall b1 b2 w w1 w2 i1 i2,
  wf (db w) ->
  post_leads b1 w = (ROkId i1, w1) -> post_leads b2 w1 = (ROkId i2, w2) ->
  ~ In i1 (map lead_id (rows (db w))) /\ In i1 (map lead_id (rows (db w1))) /\ i1 < i2.
Proof.
  intros b1 b2 w w1 w2 i1 i2 [Hlt _] H1 H2.
  apply post_leads_ok in H1 as [_ H1]. apply post_leads_ok in H2 as [_ H2].
  apply insertLead_spec in H1 as (_ & -> & Hn & _ & Hr).
  apply insertLead_spec in H2 as (_ & -> & _ & _ & _).
  split; [|split].
  - intros Hin. apply in_map_iff in Hin as [x [Hx Hin]].
    rewrite Forall_forall in Hlt. specialize (Hlt x Hin). lia.
  - rewrite Hr, map_app. apply in_or_app. right. left. reflexivity.
  - rewrite Hn. lia.
Qed.

Lemma post_leads_fresh_increasing_witness :
  ~ In 1 (map lead_id (rows (db world0))) /\
  In 1 (map lead_id (rows (db (snd (post_leads body_ann world0))))) /\ 1 < 2.
Proof.
  apply (post_leads_fresh_increasing body_ann body_ann world0 (snd (post_leads body_ann world0))
           (snd (post_leads body_ann (snd (post_leads body_ann world0))))).
  - exact wf_empty.
  - reflexivity.
  - reflexivity.
Defined.

(** X13. Once a valid submission reaches a working database,
    [handleEmailLead] keeps its row, with source "email" whatever source
    the body names, with the clock as [createdAt] and the next
    AUTOINCREMENT key as id, whatever the mail configuration and whatever
    the SMTP server answers. *)
Theorem email_lead_always_stored : forall e net b w,
  fields_present b = true -> isValidEmail (b_email b) = true -> db_ok (db w) = true ->
  exists row,
    rows (db (snd (handleEmailLead e net b w))) = app (rows (db w)) [row] /\
    lead_id row = next_id (db w) /\ createdAt row = clock w /\
    lead_email row = bind (b_email b) /\ lead_source row = JStr "email".
Proof.
  intros e net b w Hf Hv Hok. pose proof Hf as Hf'. fields_split Hf'.
  destruct (insertLead_some (db w) (clock w) (email_payload b) Hok) as [st Hins]; simpl; auto.
  rewrite (handleEmailLead_after_insert e net b w _ st Hf Hv Hins).
  apply insertLead_spec in Hins as (_ & _ & _ & _ & Hr).
  eexists. rewrite Hr. split; [reflexivity|]. simpl. auto.
Qed.

Lemma email_lead_always_stored_witness :
  exists row,
    rows (db (snd (handleEmailLead env_full (fun _ _ => false) body_ann world0)))
      = app (rows (db world0)) [row] /\
    lead_id row = next_id (db world0) /\ createdAt row = clock world0 /\
    lead_email row = bind (b_email body_ann) /\ lead_source row = JStr "email".
Proof. apply email_lead_always_stored; reflexivity. Defined.

(** X14. When the database refuses the insert, a valid submission to
    [handleEmailLead] gets the 500 "Email send failed" (the message of a
    mail failure), no mail is sent and nothing changes. *)
Theorem email_lead_db_down : forall e net b w,
  fields_present b = true -> isValidEmail (b_email b) = true -> db_ok (db w) = false ->
  handleEmailLead e net b w = (RError 500 "Email send failed", w).
Proof.
  intros e net b w Hf Hv Hok. unfold handleEmailLead. rewrite Hf, Hv. simpl.
  unfold insertLead. rewrite Hok. reflexivity.
Qed.

Lemma email_lead_db_down_witness :
  handleEmailLead env_full accept_all body_ann (set_db world0 (mkStore [] 1 false))
    = (RError 500 "Email send failed", set_db world0 (mkStore [] 1 false)).
Proof. apply email_lead_db_down; reflexivity. Defined.

(** X15. [handleEmailLead] sends at most two mails, all through the
    transport [getMailer] builds, each addressed to [MAIL_TO] or to the
    submitted email; a success answer comes with exactly two. *)
Theorem email_lead_outbox : forall e net b w resp w',
  handleEmailLead e net b w = (resp, w') ->
  exists sent,
    outbox w' = app (outbox w) sent /\ length sent <= 2 /\
    (forall tr m, In (tr, m) sent ->
       getMailer e = Some tr /\
       ((exists mt, MAIL_TO e = Some mt /\ m_to m = JStr mt) \/ m_to m = js_value (b_email b))) /\
    (forall id x y, resp = ROkMailed id x y -> length sent = 2).
Proof.
  intros e net b w resp w' H. unfold handleEmailLead in H.
  destruct (negb (fields_present b)).
  { injection H as <- <-. exists []. rewrite app_nil_r. simpl. split; [auto|].
    split; [lia|]. split; [tauto|discriminate]. }
  destruct (negb (isValidEmail (b_email b))).
  { injection H as <- <-. exists []. rewrite app_nil_r. simpl. split; [auto|].
    split; [lia|]. split; [tauto|discriminate]. }
  destruct (insertLead _ _ _) as [[id st]|].
  2:{ injection H as <- <-. exists []. rewrite app_nil_r. simpl. split; [auto|].
      split; [lia|]. split; [tauto|discriminate]. }
  destruct (MAIL_TO e) as [mt|] eqn:Hmt.
  2:{ injection H as <- <-. exists []. rewrite app_nil_r. simpl. split; [auto|].
      split; [lia|]. split; [tauto|discriminate]. }
  destruct (negb (env_truthy (Some mt))).
  { injection H as <- <-. exists []. rewrite app_nil_r. simpl. split; [auto|].
    split; [lia|]. split; [tauto|discriminate]. }
  destruct (getMailer e) as [tr|] eqn:Hg.
  2:{ injection H as <- <-. exists []. rewrite app_nil_r. simpl. split; [auto|].
      split; [lia|]. split; [tauto|discriminate]. }
  unfold sendMail in H. simpl in H.
  set (m1 := owner_mail _ _ _ _ _ _ _ _) in H.
  set (m2 := customer_mail _ _ _ _ _ _ _ _) in H.
  assert (Hto : forall t m, In (t, m) [(tr, m1); (tr, m2)] ->
            Some tr = Some t /\
            ((exists mt', Some mt = Some mt' /\ m_to m = JStr mt') \/ m_to m = js_value (b_email b))).
  { intros t m [Hm|[Hm|[]]]; injection Hm as <- <-; split; [reflexivity| |reflexivity|].
    - left. exists mt. split; reflexivity.
    - right. reflexivity. }
  destruct (net tr m1); simpl in H.
  - exists [(tr, m1); (tr, m2)].
    assert (Hw : outbox w' = app (outbox w) [(tr, m1); (tr, m2)]).
    { destruct (net tr m2); injection H as _ <-; simpl; rewrite <- app_assoc; reflexivity. }
    split; [exact Hw|]. split; [simpl; lia|]. split; [exact Hto|]. reflexivity.
  - injection H as <- <-. exists [(tr, m1)]. simpl. split; [reflexivity|].
    split; [lia|]. split; [|discriminate].
    intros t m [Hm|[]]. apply Hto. left. exact Hm.
Qed.

Lemma email_lead_outbox_witness :
  exists sent,
    outbox (snd (handleEmailLead env_full accept_all body_ann world0)) = app (outbox world0) sent /\
    length sent <= 2 /\
    (forall tr m, In (tr, m) sent ->
       getMailer env_full = Some tr /\
       ((exists mt, MAIL_TO env_full = Some mt /\ m_to m = JStr mt) \/
        m_to m = js_value (b_email body_ann))) /\
    (forall id x y, fst (handleEmailLead env_full accept_all body_ann world0) = ROkMailed id x y ->
       length sent = 2).
Proof.
  apply (email_lead_outbox env_full accept_all body_ann world0
           (fst (handleEmailLead env_full accept_all body_ann world0))
           (snd (handleEmailLead env_full accept_all body_ann world0))).
  reflexivity.
Defined.

(** X16. Both intake routes validate alike: a submission gets a 400 with a
    given message from [POST /api/leads] exactly when it gets it from
    [handleEmailLead], and a 400 changes nothing on either route. *)
Theorem intake_validation_agrees : forall e net b w m,
  (fst (post_leads b w) = RError 400 m <-> fst (handleEmailLead e net b w) = RError 400 m) /\
  (fst (post_leads b w) = RError 400 m -> snd (post_leads b w) = w /\
                                          snd (handleEmailLead e net b w) = w).
Proof.
  intros e net b w m. unfold post_leads, handleEmailLead.
  destruct (negb (fields_present b)); [simpl; tauto|].
  destruct (negb (isValidEmail (b_email b))); [simpl; tauto|].
  destruct (insertLead (db w) (clock w) _) as [[i st]|];
    [|destruct (insertLead (db w) (clock w) _) as [[i st]|]].
  - split; [|discriminate].
    split; [discriminate|].
    destruct (insertLead (db w) (clock w) _) as [[i' st']|]; [|discriminate].
    unfold sendMail. split_ifs; discriminate.
  - split; [|discriminate]. split; [discriminate|].
    unfold sendMail. split_ifs; discriminate.
  - split; [|discriminate]. split; discriminate.
Qed.

Lemma intake_validation_agrees_witness :
  (fst (post_leads (body_with_email (JStr "nope")) world0) = RError 400 "Invalid email" <->
   fst (handleEmailLead env_full accept_all (body_with_email (JStr "nope")) world0)
     = RError 400 "Invalid email") /\
  (fst (post_leads (body_with_email (JStr "nope")) world0) = RError 400 "Invalid email" ->
   snd (post_leads (body_with_email (JStr "nope")) world0) = world0 /\
   snd (handleEmailLead env_full accept_all (body_with_email (JStr "nope")) world0) = world0).
Proof. apply intake_validation_agrees. Defined.

(** ** Mailer, email check and escaping *)

Lemma strip_ws_all_ws : forall s, all_chars is_ws s = true -> strip_ws s = EmptyString.
Proof.
  induction s as [|c s IH]; intros H; [reflexivity|].
  cbn [all_chars] in H. apply andb_prop in H as [Hc H].
  cbn [strip_ws]. rewrite Hc. apply IH, H.
Qed.

(** X17. [getMailer] builds a transport exactly when [SMTP_HOST],
    [SMTP_USER] and [SMTP_PASS] are set and non-empty and
    [Number(SMTP_PORT || 587)] is a non-zero number; a port such as
    [abc] or [0] turns mail off. *)
Theorem getMailer_some_iff : forall e,
  (exists t, getMailer e = Some t) <->
  env_truthy (SMTP_HOST e) = true /\ env_truthy (SMTP_USER e) = true /\
  env_truthy (SMTP_PASS e) = true /\ jsnum_truthy (smtp_port e) = true.
Proof.
  intros e. unfold getMailer.
  destruct (SMTP_HOST e) as [h|], (SMTP_USER e) as [u|], (SMTP_PASS e) as [pw|];
    simpl; try (split; [intros [t Ht]; discriminate|intros H; destruct H as (H & _ & _ & _);
                       discriminate]);
    try (split; [intros [t Ht]; discriminate|intros (_ & H & _ & _); discriminate]);
    try (split; [intros [t Ht]; discriminate|intros (_ & _ & H & _); discriminate]).
  destruct (h =? EmptyString)%string, (u =? EmptyString)%string, (pw =? EmptyString)%string,
    (jsnum_truthy (smtp_port e)); simpl;
    first [ split; [intros _; repeat split|intros _; eexists; reflexivity]
          | split; [intros [t Ht]; discriminate|intros (H1 & H2 & H3 & H4); discriminate] ].
Qed.

Lemma getMailer_some_iff_witness :
  getMailer (mkEnv None None (Some "smtp.example.nl") (Some "abc") (Some "kc@example.nl")
               (Some "pw") (Some "owner@example.nl") None None) = None.
Proof.
  destruct (getMailer _) as [t|] eqn:E; [|reflexivity].
  assert (H : exists t, getMailer (mkEnv None None (Some "smtp.example.nl") (Some "abc")
                (Some "kc@example.nl") (Some "pw") (Some "owner@example.nl") None None) = Some t)
    by (exists t; exact E).
  apply getMailer_some_iff in H as (_ & _ & _ & H). discriminate H.
Defined.

(** X18. A password made only of whitespace passes the presence check of
    [getMailer] (it is checked before the strip) and reaches the transport
    as the empty string. *)
Theorem getMailer_blank_password : forall e h u pw,
  SMTP_HOST e = Some h -> h <> EmptyString -> SMTP_USER e = Some u -> u <> EmptyString ->
  SMTP_PASS e = Some pw -> pw <> EmptyString -> all_chars is_ws pw = true ->
  jsnum_truthy (smtp_port e) = true ->
  exists t, getMailer e = Some t /\ tr_host t = h /\ tr_user t = u /\ tr_pass t = EmptyString.
Proof.
  intros e h u pw Hh Hh' Hu Hu' Hp Hp' Hws Hport. unfold getMailer.
  rewrite Hh, Hu, Hp, Hport. simpl.
  apply String.eqb_neq in Hh', Hu', Hp'. rewrite Hh', Hu', Hp'. simpl.
  eexists. split; [reflexivity|]. simpl. split; [reflexivity|]. split; [reflexivity|].
  apply strip_ws_all_ws, Hws.
Qed.

Lemma getMailer_blank_password_witness :
  exists t, getMailer (mkEnv None None (Some "smtp.example.nl") None (Some "kc@example.nl")
                        (Some "   ") None None None) = Some t /\
            tr_host t = "smtp.example.nl" /\ tr_user t = "kc@example.nl" /\ tr_pass t = EmptyString.
Proof.
  apply (getMailer_blank_password _ "smtp.example.nl" "kc@example.nl" "   ");
    first [reflexivity | discriminate].
Defined.

Lemma count_char_app : forall c a b, count_char c (a ++ b) = count_char c a + count_char c b.
Proof.
  intros c a b. induction a as [|x a IH]; [reflexivity|]. cbn [append count_char].
  rewrite IH. lia.
Qed.

Lemma not_ws_at_chars : forall s, all_chars not_ws_at s = true ->
  count_char "@"%char s = 0 /\ all_chars (fun c => negb (is_ws c)) s = true.
Proof.
  induction s as [|c s IH]; intros H; [split; reflexivity|].
  cbn [all_chars] in H. apply andb_prop in H as [Hc H]. apply IH in H as [H1 H2].
  unfold not_ws_at in Hc. apply andb_prop in Hc as [Hw Ha].
  cbn [count_char all_chars]. rewrite H1, H2, Hw. apply negb_true_iff in Ha.
  rewrite Ha. split; reflexivity.
Qed.

Lemma isValidEmail_str : forall s, isValidEmail (Some (JStr s)) = re_test email_re (trim s).
Proof.
  intros s. unfold isValidEmail, js_or, truthy.
  destruct (s =? EmptyString)%string eqn:E; [|reflexivity].
  apply String.eqb_eq in E. subst s. reflexivity.
Qed.

(** X19. An address [isValidEmail] accepts holds, once trimmed, exactly
    one [@], no whitespace, and at least six characters. *)
Theorem valid_email_one_at : forall v,
  isValidEmail v = true ->
  let t := trim (js_String (js_or v (JStr EmptyString))) in
  count_char "@"%char t = 1 /\ all_chars (fun c => negb (is_ws c)) t = true /\
  6 <= String.length t.
Proof.
  intros v H t. unfold isValidEmail in H. fold t in H. apply email_re_shape in H.
  destruct H as (l & d & x & Ht & Hl & Hl1 & Hd & Hd1 & Hx & Hx2).
  apply not_ws_at_chars in Hl as [Hl Hl'], Hd as [Hd Hd'], Hx as [Hx Hx'].
  rewrite Ht. split; [|split].
  - rewrite count_char_app. cbn [count_char]. rewrite count_char_app. cbn [count_char].
    rewrite Hl, Hd, Hx. reflexivity.
  - rewrite all_chars_app. cbn [all_chars]. rewrite all_chars_app. cbn [all_chars].
    rewrite Hl', Hd', Hx'. reflexivity.
  - rewrite str_length_app. cbn [String.length]. rewrite str_length_app. cbn [String.length]. lia.
Qed.

Lemma valid_email_one_at_witness :
  count_char "@"%char "x.y@mail.example.nl" = 1 /\
  all_chars (fun c => negb (is_ws c)) "x.y@mail.example.nl" = true /\
  6 <= String.length "x.y@mail.example.nl".
Proof. apply (valid_email_one_at (Some (JStr " x.y@mail.example.nl "))). reflexivity. Defined.

(** X20. [isValidEmail] ignores whitespace around a string address:
    trimming it first never changes the answer. *)
Theorem isValidEmail_trim_invariant : forall s,
  isValidEmail (Some (JStr (trim s))) = isValidEmail (Some (JStr s)).
Proof. intros s. rewrite !isValidEmail_str, trim_idem. reflexivity. Qed.

Lemma esc_str_plain : forall s, all_chars (fun c => negb (is_reserved c)) s = true -> esc_str s = s.
Proof.
  induction s as [|c s IH]; intros H; [reflexivity|].
  cbn [all_chars] in H. apply andb_prop in H as [Hc H].
  cbn [esc_str]. rewrite IH by exact H.
  unfold is_reserved, is_markup in Hc. unfold esc_char.
  destruct (Ascii.eqb c "&"%char), (Ascii.eqb c "<"%char), (Ascii.eqb c ">"%char),
    (Ascii.eqb c (ascii_of_nat 34)), (Ascii.eqb c "'"%char); try discriminate; reflexivity.
Qed.

(** X21. [escapeHtml] turns [undefined], [null], [false], [0] and the
    empty string into the empty string, and returns a string without any
    of the five reserved characters unchanged. *)
Theorem escapeHtml_falsy_and_plain :
  (forall v, truthy_opt v = false -> escapeHtml v = EmptyString) /\
  (forall s, all_chars (fun c => negb (is_reserved c)) s = true -> escapeHtml (Some (JStr s)) = s).
Proof.
  split.
  - intros v H. rewrite escapeHtml_esc_str. destruct v as [v|]; [|reflexivity].
    simpl in H. unfold js_or. rewrite H. reflexivity.
  - intros s H. rewrite escapeHtml_esc_str. unfold js_or, truthy.
    destruct (s =? EmptyString)%string eqn:E; simpl.
    + apply String.eqb_eq in E. subst s. reflexivity.
    + apply esc_str_plain, H.
Qed.

Lemma escapeHtml_falsy_and_plain_witness :
  escapeHtml (Some (JNum "0")) = EmptyString /\ escapeHtml (Some (JStr "Poetsbeurt 2x")) = "Poetsbeurt 2x".
Proof.
  split; [apply (proj1 escapeHtml_falsy_and_plain)|apply (proj2 escapeHtml_falsy_and_plain)];
    reflexivity.
Defined.

(** X22. Decoding the five entities of an [escapeHtml] output gives back
    the original string. *)
Theorem escapeHtml_round_trip : forall s, unescape (escapeHtml (Some (JStr s))) = s.
Proof.
  intros s. rewrite escapeHtml_esc_str. unfold js_or, truthy.
  destruct (s =? EmptyString)%string eqn:E; simpl.
  - apply String.eqb_eq in E. subst s. reflexivity.
  - apply unescape_esc_str.
Qed.

(** X23. A lead that [POST /api/leads] accepts shows up in the admin
    listing that follows, under the id the POST answered, with the
    submitted name, email, service and message. *)
Theorem posted_lead_listed : forall b w id w' e r,
  post_leads b w = (ROkId id, w') -> requireAdmin e r = Next ->
  exists l row,
    get_admin_leads e r w' = ROkRows l /\ In row l /\ lead_id row = id /\
    lead_name row = bind (b_name b) /\ lead_email row = bind (b_email b) /\
    lead_service row = bind (b_service b) /\ lead_message row = bind (b_message b).
Proof.
  intros b w id w' e r H Hg. apply post_leads_ok in H as [_ H].
  apply insertLead_spec in H as (_ & _ & _ & Hok & Hr).
  destruct (listAll_contains_last _ _ _ Hok Hr) as (l & Hl & Hin).
  exists l. eexists. unfold get_admin_leads. rewrite Hg, Hl.
  split; [reflexivity|]. split; [exact Hin|]. simpl. auto.
Qed.

Lemma posted_lead_listed_witness :
  exists l row,
    get_admin_leads env_full (mkAdminReq (Some "Bearer s3cret") None)
      (snd (post_leads body_ann world0)) = ROkRows l /\ In row l /\ lead_id row = 1 /\
    lead_name row = bind (b_name body_ann) /\ lead_email row = bind (b_email body_ann) /\
    lead_service row = bind (b_service body_ann) /\ lead_message row = bind (b_message body_ann).
Proof. apply (posted_lead_listed body_ann world0); reflexivity. Defined.
